(** * mapmarkers: reconciling dynmap markers with the Minecraft maps of a world

    A shallow embedding of [mapmarkers.py].  The script reads the map files
    of a world ([loadMaps]), the markers of a dynmap marker set
    ([loadMarkers]) and sends [dmarker] console commands until the markers
    reflect the maps ([__main__]).

    Conventions of the embedding:
    - a Python [str] is a [string]; one character is one code point below
      256, so that [.] and [\d] of the file-name pattern read a character
      at a time;
    - a Python [int] is a [Z];
    - a Python [dict] is an association list in insertion order, as
      [dict.items()] enumerates it;
    - an uncaught exception, [sys.exit] included, is a [Raise]; what the
      script has printed or sent before it stays in the trace;
    - the file system and the two parsers are an environment [Env] that
      the script reads: what [glob.glob] lists, what [nbtlib.load] and
      [yaml.safe_load] return or raise. *)

From Stdlib Require Import List String Ascii ZArith NArith Bool Lia Permutation.
From Stdlib Require Import Decimal DecimalString DecimalZ SpecFloat.
Import ListNotations.

Local Open Scope string_scope.
Local Open Scope Z_scope.
Local Open Scope list_scope.

(** [s + t] on strings *)
Infix "+++" := String.append (at level 60, right associativity).

Set Implicit Arguments.
Set Warnings "-register-all".

(* ===================================================================== *)
(** ** The Python run time the script relies on *)
(* ===================================================================== *)

(** The exceptions met in the script. [SystemExit] is what [sys.exit]
    raises; the others are never caught, except [IOError] in
    [loadMarkers]. *)
Inductive exn : Type :=
| IOError
| YAMLError
| KeyError
| TypeError
| AttributeError
| ValueError
| OverflowError
| SystemExit (status : Z).

Inductive outcome (A : Type) : Type :=
| Ret (a : A)
| Raise (e : exn).

Arguments Ret {A} a.
Arguments Raise {A} e.

Definition rbind {A B} (r : outcome A) (k : A -> outcome B) : outcome B :=
  match r with
  | Ret a => k a
  | Raise e => Raise e
  end.

(** Code with output: the events so far, then a value or an exception. *)
Definition run (E A : Type) : Type := (list E * outcome A)%type.

Definition ret {E A} (a : A) : run E A := ([], Ret a).

Definition raise {E A} (e : exn) : run E A := ([], Raise e).

Definition emit {E} (ev : E) : run E unit := ([ev], Ret tt).

Definition lift {E A} (r : outcome A) : run E A := ([], r).

Definition bind {E A B} (m : run E A) (k : A -> run E B) : run E B :=
  match m with
  | (t, Ret a) => let (t', r) := k a in (t ++ t', r)
  | (t, Raise e) => (t, Raise e)
  end.

Declare Scope run_scope.
Delimit Scope run_scope with run.
Notation "x <- m ;; k" := (bind m (fun x => k))
  (at level 61, m at next level, right associativity) : run_scope.
Notation "m ;; k" := (bind m (fun _ => k))
  (at level 61, right associativity) : run_scope.
Notation "x <-? r ;; k" := (rbind r (fun x => k))
  (at level 61, r at next level, right associativity) : run_scope.
Local Open Scope run_scope.

(** [for x in l: body(x)] *)
Fixpoint for_each {E A} (l : list A) (body : A -> run E unit) : run E unit :=
  match l with
  | [] => ret tt
  | x :: l' => body x ;; for_each l' body
  end.

(** The status the interpreter hands to the shell: the argument of
    [sys.exit], 1 after any other uncaught exception, 0 at the end of the
    script. *)
Definition exit_status {A} (r : outcome A) : Z :=
  match r with
  | Ret _ => 0
  | Raise (SystemExit n) => n
  | Raise _ => 1
  end.

(* --------------------------------------------------------------------- *)
(** *** Dictionaries *)

Section Dict.
Variables K V : Type.
Variable K_eq_dec : forall a b : K, {a = b} + {a <> b}.

Definition dict : Type := list (K * V).

Definition keys (d : dict) : list K := map fst d.

(** [d.get(k)], and [d[k]] where [None] stands for [KeyError] *)
Fixpoint dict_get (k : K) (d : dict) : option V :=
  match d with
  | [] => None
  | (k', v) :: d' => if K_eq_dec k k' then Some v else dict_get k d'
  end.

(** [k in d] *)
Definition dict_mem (k : K) (d : dict) : bool :=
  match dict_get k d with
  | Some _ => true
  | None => false
  end.

(** [d[k] = v]: a known key keeps its place, a new one goes last. *)
Fixpoint dict_set (k : K) (v : V) (d : dict) : dict :=
  match d with
  | [] => [(k, v)]
  | (k', v') :: d' =>
      if K_eq_dec k k' then (k', v) :: d' else (k', v') :: dict_set k v d'
  end.

(** [d.pop(k, None)]: the key goes if it is there. *)
Fixpoint dict_del (k : K) (d : dict) : dict :=
  match d with
  | [] => []
  | (k', v') :: d' =>
      if K_eq_dec k k' then dict_del k d' else (k', v') :: dict_del k d'
  end.

(** [d[k]] *)
Definition getitem (k : K) (d : dict) : outcome V :=
  match dict_get k d with
  | Some v => Ret v
  | None => Raise KeyError
  end.

End Dict.

Arguments dict_get {K V} K_eq_dec k d.
Arguments dict_mem {K V} K_eq_dec k d.
Arguments dict_set {K V} K_eq_dec k v d.
Arguments dict_del {K V} K_eq_dec k d.
Arguments getitem {K V} K_eq_dec k d.
Arguments keys {K V} d.

(* --------------------------------------------------------------------- *)
(** *** Strings and integers *)

Definition nl : string := String "010" "".
Definition dq : string := String "034" "".

(** [' '.join(args)], which is how [print] lays out its arguments *)
Fixpoint join (args : list string) : string :=
  match args with
  | [] => ""
  | [a] => a
  | a :: rest => a +++ " " +++ join rest
  end.

(** [str(n)] and [f'{n}'] for an [int] *)
Definition str (n : Z) : string := NilEmpty.string_of_int (Z.to_int n).

Definition is_digit (c : ascii) : bool :=
  ((48 <=? N_of_ascii c) && (N_of_ascii c <=? 57))%N.

Definition digit_value (c : ascii) : Z := Z.of_N (N_of_ascii c) - 48.

(** [int(s)] for a string of decimal digits, most significant first *)
Fixpoint int_of_digits (acc : Z) (s : string) : Z :=
  match s with
  | EmptyString => acc
  | String c s' => int_of_digits (10 * acc + digit_value c) s'
  end.

(** [s in t] on strings *)
Fixpoint is_substring (s t : string) : bool :=
  prefix s t ||
  match t with
  | EmptyString => false
  | String _ t' => is_substring s t'
  end.

(** [sorted(l)] on strings: code points compared left to right *)
Fixpoint insert_sorted (s : string) (l : list string) : list string :=
  match l with
  | [] => [s]
  | t :: l' => if String.leb s t then s :: l else t :: insert_sorted s l'
  end.

Definition sorted (l : list string) : list string :=
  fold_right insert_sorted [] l.

(* --------------------------------------------------------------------- *)
(** *** What [yaml.safe_load] returns *)

(** The values of a YAML document with string keys.  A float is the
    number it denotes: a sign, a mantissa and a binary exponent, or one of
    the special values. *)
Inductive yaml : Type :=
| YNull
| YBool (b : bool)
| YInt (n : Z)
| YFloat (f : spec_float)
| YStr (s : string)
| YSeq (items : list yaml)
| YMap (entries : list (string * yaml)).

(** [v == s] for a string [s]: a value that is no string differs from it. *)
Definition py_eq_str (v : yaml) (s : string) : bool :=
  match v with
  | YStr t => String.eqb t s
  | _ => false
  end.

(** [s in v]: a key of a mapping, an item of a sequence, a part of a
    string; [TypeError]: argument is not iterable. *)
Definition py_in (s : string) (v : yaml) : outcome bool :=
  match v with
  | YMap entries => Ret (dict_mem string_dec s entries)
  | YSeq items => Ret (existsb (fun i => py_eq_str i s) items)
  | YStr t => Ret (is_substring s t)
  | YNull | YBool _ | YInt _ | YFloat _ => Raise TypeError
  end.

(** [v[k]] for a string [k]: only a mapping is indexed by a string. *)
Definition py_getitem (v : yaml) (k : string) : outcome yaml :=
  match v with
  | YMap entries => getitem string_dec k entries
  | _ => Raise TypeError
  end.

(** [v.items()] *)
Definition py_items (v : yaml) : outcome (list (string * yaml)) :=
  match v with
  | YMap entries => Ret entries
  | _ => Raise AttributeError
  end.

(** [int(f)] for a float: towards zero. *)
Definition int_of_float (f : spec_float) : outcome Z :=
  match f with
  | S754_zero _ => Ret 0
  | S754_infinity _ => Raise OverflowError
  | S754_nan => Raise ValueError
  | S754_finite s m e =>
      let a := if 0 <=? e then Zpos m * 2 ^ e else Zpos m / 2 ^ (- e) in
      Ret (if s then - a else a)
  end.

Section PyInt.
(** [int(s)] for an arbitrary string (blanks, sign, digits, underscores)
    is left to the interpreter: nothing below depends on its grammar. *)
Variable int_of_str : string -> outcome Z.

(** [int(v)] *)
Definition py_int (v : yaml) : outcome Z :=
  match v with
  | YInt n => Ret n
  | YBool b => Ret (if b then 1 else 0)
  | YFloat f => int_of_float f
  | YStr s => int_of_str s
  | YNull | YSeq _ | YMap _ => Raise TypeError
  end.
End PyInt.

(* ===================================================================== *)
(** ** The script *)
(* ===================================================================== *)

(** What the script does to the outside: lines printed, console commands
    run through [os.system], and the pause of [time.sleep]. *)
Inductive event : Type :=
| Stdout (text : string)
| Stderr (text : string)
| System (command : string)
| Sleep (seconds : Z).

(** What [open(name, 'r')] followed by [yaml.safe_load(f)] makes of a
    file: an [OSError] (of which [IOError] is the other name) when it
    cannot be opened or read, a [UnicodeDecodeError] (a [ValueError]) when
    its bytes are no text, a [yaml.YAMLError] when its text is no YAML, or
    the document. *)
Inductive loaded : Type :=
| Unopenable
| Undecodable
| Malformed
| Document (doc : yaml).

Definition load_outcome (l : loaded) : outcome yaml :=
  match l with
  | Unopenable => Raise IOError
  | Undecodable => Raise ValueError
  | Malformed => Raise YAMLError
  | Document doc => Ret doc
  end.

(** What the script reads from the outside.  [nbt_load] stands for
    [nbtlib.load(file)] and the four fields read from
    [nbt.root['data']]. *)
Record MapData : Type := {
  dimension : string;
  scale : Z;
  xCenter : Z;
  zCenter : Z
}.

Record Env : Type := {
  isfile : string -> bool;
  isdir : string -> bool;
  glob : string -> list string;
  nbt_load : string -> outcome MapData;
  safe_load : string -> loaded
}.

Definition DEBUG : bool := false.
Definition MARKER_Y : Z := 64.

Definition debug (args : list string) : run event unit :=
  if DEBUG then emit (Stdout (join ("#" :: args))) else ret tt.

Definition eprint (args : list string) : run event unit :=
  emit (Stderr (join args)).

Definition error (args : list string) : run event unit :=
  eprint ("#ERROR:" :: args).

Definition warning (args : list string) : run event unit :=
  eprint ("#WARNING:" :: args).

Definition sys_exit {A} (status : Z) : run event A := raise (SystemExit status).

Definition usage_text (argv0 : string) : string :=
  nl +++ "#Usage: " +++ argv0 +++ " <server> <world> <maps-dir> <markers-file> <marker-set>" +++ nl +++
  nl +++
  "Add dynmap markers in the specified world for all Minecraft maps in that world." +++ nl +++
  "Markers are named after the map number. They are created by issuing console" +++ nl +++
  "commands with " +++ dq +++ "mark2 send -n <server>" +++ dq +++ "." +++ nl +++
  nl +++
  "<maps-dir> is the path to the directory containing " +++ dq +++ "map_<n>.dat" +++ dq +++ " files, e.g." +++ nl +++
  dq +++ "/servers/pve/worlds/world/data" +++ dq +++ "." +++ nl +++
  nl +++
  "<markers-file> is the path to the dynmap markers configuration file, e.g." +++ nl +++
  dq +++ "/servers/pve/plugins/dynmap/markers.yml" +++ dq +++ "." +++ nl +++
  nl +++
  "<marker-set> is the name of the set of markers to update, e.g. " +++ dq +++ "markers" +++ dq +++ "." +++ nl.

Definition usage {A} (argv0 : string) : run event A :=
  eprint [usage_text argv0] ;;
  sys_exit 1.

(* --------------------------------------------------------------------- *)
(** *** loadMarkers *)

(** The loop of [loadMarkers]: [and] reads the label only when the world
    is the right one. *)
Fixpoint loadMarkers_loop (world : string) (items : list (string * yaml))
    (result : dict string yaml) : outcome (dict string yaml) :=
  match items with
  | [] => Ret result
  | (id, marker) :: rest =>
      w <-? py_getitem marker "world" ;;
      if py_eq_str w world then
        l <-? py_getitem marker "label" ;;
        if py_eq_str l id
        then loadMarkers_loop world rest (dict_set string_dec id marker result)
        else loadMarkers_loop world rest result
      else loadMarkers_loop world rest result
  end.

(** [markers['sets'][markerSet]['markers'].items()] *)
Definition set_items (markers : yaml) (markerSet : string)
    : outcome (list (string * yaml)) :=
  sets <-? py_getitem markers "sets" ;;
  set <-? py_getitem sets markerSet ;;
  ms <-? py_getitem set "markers" ;;
  py_items ms.

Definition loadMarkers (env : Env) (markersFileName markerSet world : string)
    : run event (dict string yaml) :=
  markers <-
    match load_outcome (safe_load env markersFileName) with
    | Raise IOError =>
        error ["cannot open markers file " +++ markersFileName +++ dq +++ " to read!"] ;;
        sys_exit 1
    | r => lift r
    end ;;
  has_sets <- lift (py_in "sets" markers) ;;
  (if negb has_sets
   then error [dq +++ markersFileName +++ dq +++ " doesn't seem to be a markers file!"] ;;
        sys_exit 1
   else ret tt) ;;
  lift (items <-? set_items markers markerSet ;;
        loadMarkers_loop world items []).

(* --------------------------------------------------------------------- *)
(** *** loadMaps *)

(** [re.match('.*/map_(\d+).dat', file)], read as the backtracking matcher
    runs it: [.*] and [\d+] take as much as they can and give back a
    character at a time; [.] is any character but a newline.  The value is
    [match.group(1)], or [None] as [re.match] returns it. *)

(** [.dat] at the head of [s] *)
Definition re_any_dat (s : string) : bool :=
  match s with
  | String c rest => negb (Ascii.eqb c "010") && prefix "dat" rest
  | EmptyString => false
  end.

(** [(\d+).dat] at the head of [s] *)
Fixpoint re_digits_dat (s : string) : option string :=
  match s with
  | String c s' =>
      if is_digit c then
        match re_digits_dat s' with
        | Some g => Some (String c g)
        | None => if re_any_dat s' then Some (String c "") else None
        end
      else None
  | EmptyString => None
  end.

(** [map_(\d+).dat] at the head of [s] *)
Definition re_map_dat (s : string) : option string :=
  match s with
  | String "m" (String "a" (String "p" (String "_" rest))) => re_digits_dat rest
  | _ => None
  end.

Fixpoint re_match (s : string) : option string :=
  match s with
  | EmptyString => None
  | String c s' =>
      match (if Ascii.eqb c "010" then None else re_match s') with
      | Some g => Some g
      | None => if Ascii.eqb c "/" then re_map_dat s' else None
      end
  end.

(** The two dictionaries of [loadMaps]: [highestMapID] from the
    coordinates key to the highest map number seen there, [allMaps] from
    the map number to its centre; [{'x': x, 'z': z}] is the pair
    [(x, z)]. *)
Definition maps_state : Type := (dict string Z * dict Z (Z * Z))%type.

Definition coordsKey (x z : Z) : string := str x +++ ":" +++ str z.

(** The body of the loop over the files *)
Definition loadMaps_file (env : Env) (world : string) (st : maps_state)
    (file : string) : outcome maps_state :=
  let (highestMapID, allMaps) := st in
  nbt <-? nbt_load env file ;;
  if String.eqb (dimension nbt) ("minecraft:" +++ world) then
    match re_match file with
    | None => Raise AttributeError
    | Some group1 =>
        let mapID := int_of_digits 0 group1 in
        if scale nbt =? 0 then
          let x := xCenter nbt in
          let z := zCenter nbt in
          let allMaps := dict_set Z.eq_dec mapID (x, z) allMaps in
          let highestMapID :=
            match dict_get string_dec (coordsKey x z) highestMapID with
            | None => dict_set string_dec (coordsKey x z) mapID highestMapID
            | Some highest =>
                if highest <? mapID
                then dict_set string_dec (coordsKey x z) mapID highestMapID
                else highestMapID
            end in
          Ret (highestMapID, allMaps)
        else Ret st
    end
  else Ret st.

Fixpoint loadMaps_files (env : Env) (world : string) (files : list string)
    (st : maps_state) : outcome maps_state :=
  match files with
  | [] => Ret st
  | file :: rest =>
      st' <-? loadMaps_file env world st file ;;
      loadMaps_files env world rest st'
  end.

(** The loop that adds the highest map number of each key to the result *)
Fixpoint loadMaps_result (items : list (string * Z)) (allMaps : dict Z (Z * Z))
    (result : dict string (Z * Z)) : outcome (dict string (Z * Z)) :=
  match items with
  | [] => Ret result
  | (_, mapID) :: rest =>
      mapData <-? getitem Z.eq_dec mapID allMaps ;;
      loadMaps_result rest allMaps (dict_set string_dec (str mapID) mapData result)
  end.

(** The reduction of an enumeration of files to the table of maps *)
Definition reduce_files (env : Env) (world : string) (files : list string)
    : outcome (dict string (Z * Z)) :=
  st <-? loadMaps_files env world files ([], []) ;;
  loadMaps_result (fst st) (snd st) [].

Definition loadMaps (env : Env) (mapsDir world : string)
    : outcome (dict string (Z * Z)) :=
  reduce_files env world (sorted (glob env (mapsDir +++ "/map_*.dat"))).

(* --------------------------------------------------------------------- *)
(** *** The console commands *)

Definition serverCommand (server command : string) : run event unit :=
  emit (System ("mark2 send -n " +++ server +++ " " +++ command)).

Definition deleteMarker (server id : string) : run event unit :=
  let command := "dmarker delete id:" +++ id in
  debug [command] ;;
  serverCommand server command.

Definition addMarker (server id markerSet world : string) (x y z : Z)
    : run event unit :=
  let command :=
    "dmarker add id:" +++ id +++ " " +++ id +++ " icon:pin set:" +++ markerSet +++
    " x:" +++ str x +++ " y:" +++ str y +++ " z:" +++ str z +++ " world:" +++ world in
  debug [command] ;;
  serverCommand server command.

(** A call of [deleteMarker] or of [addMarker]; the server, the marker
    set and the world are those of the run. *)
Inductive Action : Type :=
| Delete (id : string)
| Add (id : string) (x y z : Z).

Definition target (a : Action) : string :=
  match a with
  | Delete id => id
  | Add id _ _ _ => id
  end.

Definition perform (server markerSet world : string) (a : Action) : run event unit :=
  match a with
  | Delete id => deleteMarker server id
  | Add id x y z => addMarker server id markerSet world x y z
  end.

(* --------------------------------------------------------------------- *)
(** *** The two loops of [__main__] *)

Section Loops.
Variable int_of_str : string -> outcome Z.

(** The loops are written once, over the two procedures they call. *)
Variable E : Type.
Variable delete : string -> run E unit.
Variable add : string -> Z -> Z -> Z -> run E unit.

(** [int(marker[k])] *)
Definition coordinate (marker : yaml) (k : string) : outcome Z :=
  v <-? py_getitem marker k ;;
  py_int int_of_str v.

(** The test of the update loop; [or] stops at the first difference. *)
Definition differs (mapData : Z * Z) (marker : yaml) : outcome bool :=
  mx <-? coordinate marker "x" ;;
  if negb (fst mapData =? mx) then Ret true else
  my <-? coordinate marker "y" ;;
  if negb (MARKER_Y =? my) then Ret true else
  mz <-? coordinate marker "z" ;;
  Ret (negb (snd mapData =? mz)).

(** Delete unused markers. *)
Definition delete_unused (maps : dict string (Z * Z)) (markers : dict string yaml)
    : run E unit :=
  for_each (keys markers) (fun mapID =>
    if negb (dict_mem string_dec mapID maps) then delete mapID else ret tt).

(** Update markers according to current maps. *)
Definition update_markers (maps : dict string (Z * Z)) (markers : dict string yaml)
    : run E unit :=
  for_each maps (fun '(mapID, mapData) =>
    match dict_get string_dec mapID markers with
    | Some marker =>
        d <- lift (differs mapData marker) ;;
        if (d : bool)
        then delete mapID ;; add mapID (fst mapData) MARKER_Y (snd mapData)
        else ret tt
    | None => add mapID (fst mapData) MARKER_Y (snd mapData)
    end).

Definition loops (maps : dict string (Z * Z)) (markers : dict string yaml)
    : run E unit :=
  delete_unused maps markers ;;
  update_markers maps markers.
End Loops.

(** The loops as the sequence of calls they make *)
Definition reconcile (int_of_str : string -> outcome Z)
    (maps : dict string (Z * Z)) (markers : dict string yaml) : run Action unit :=
  loops int_of_str (fun id => emit (Delete id)) (fun id x y z => emit (Add id x y z))
    maps markers.

(* --------------------------------------------------------------------- *)
(** *** [__main__] *)

(** [sys.argv] is [argv0 :: args]. *)
Definition main (int_of_str : string -> outcome Z) (env : Env)
    (argv0 : string) (args : list string) : run event unit :=
  (if negb (Nat.eqb (List.length (argv0 :: args)) 6) then usage argv0 else ret tt) ;;
  match args with
  | [server; world; mapsDir; markersFileName; markerSet] =>
      (if negb (isfile env markersFileName)
       then error [dq +++ markersFileName +++ dq +++ " doesn't exist!"] ;; sys_exit 1
       else ret tt) ;;
      (if negb (isdir env mapsDir)
       then error [dq +++ mapsDir +++ dq +++ " is not a directory!"] ;; sys_exit 1
       else ret tt) ;;
      serverCommand server "save-all" ;;
      emit (Sleep 5) ;;
      maps <- lift (loadMaps env mapsDir world) ;;
      markers <- loadMarkers env markersFileName markerSet world ;;
      loops int_of_str (deleteMarker server)
        (fun id x y z => addMarker server id markerSet world x y z) maps markers
  | _ => raise ValueError
  end.

Unset Implicit Arguments.

(* ===================================================================== *)
(** ** Notions used to state the properties *)
(* ===================================================================== *)

(** The actions of a sequence that target one id, in their order *)
Definition actions_on (id : string) (actions : list Action) : list Action :=
  filter (fun a => String.eqb (target a) id) actions.

(** The [(x, y, z)] of a marker, each read as the update loop reads it *)
Definition position (int_of_str : string -> outcome Z) (marker : yaml)
    : outcome (Z * Z * Z) :=
  x <-? coordinate int_of_str marker "x" ;;
  y <-? coordinate int_of_str marker "y" ;;
  z <-? coordinate int_of_str marker "z" ;;
  Ret (x, y, z).

(** The body of the update loop, as the calls it makes *)
Definition update_one (int_of_str : string -> outcome Z) (markers : dict string yaml)
    (entry : string * (Z * Z)) : run Action unit :=
  let '(mapID, mapData) := entry in
  match dict_get string_dec mapID markers with
  | Some marker =>
      d <- lift (differs int_of_str mapData marker) ;;
      if (d : bool)
      then emit (Delete mapID) ;; emit (Add mapID (fst mapData) MARKER_Y (snd mapData))
      else ret tt
  | None => emit (Add mapID (fst mapData) MARKER_Y (snd mapData))
  end.

(** The body of the deletion loop, as the calls it makes *)
Definition delete_one (maps : dict string (Z * Z)) (mapID : string) : list Action :=
  if dict_mem string_dec mapID maps then [] else [Delete mapID].

(** Modelled from the spec: what the marker store makes of an action, in
    the words of the idempotence property. A delete removes the id; an add
    inserts a marker whose label is the id, at the coordinates of the
    action, in the world of the run. *)
Definition apply_action (world : string) (table : dict string yaml) (a : Action)
    : dict string yaml :=
  match a with
  | Delete id => dict_del string_dec id table
  | Add id x y z =>
      dict_set string_dec id
        (YMap [("world", YStr world); ("label", YStr id);
               ("x", YInt x); ("y", YInt y); ("z", YInt z)]) table
  end.

Definition apply_actions (world : string) (actions : list Action)
    (table : dict string yaml) : dict string yaml :=
  fold_left (apply_action world) actions table.

(** A marker that [loadMarkers] keeps: in the world, labelled by its id *)
Definition managed (world : string) (entry : string * yaml) : bool :=
  match py_getitem (snd entry) "world", py_getitem (snd entry) "label" with
  | Ret w, Ret l => py_eq_str w world && py_eq_str l (fst entry)
  | _, _ => false
  end.

(** The map record of a file, as the loop of [loadMaps] reads it: the
    map number and the centre of a file of the world at scale 0, nothing
    for a file of another dimension or another scale. *)
Definition map_record (env : Env) (world file : string)
    : outcome (option (Z * (Z * Z))) :=
  nbt <-? nbt_load env file ;;
  if String.eqb (dimension nbt) ("minecraft:" +++ world) then
    match re_match file with
    | None => Raise AttributeError
    | Some group1 =>
        if scale nbt =? 0
        then Ret (Some (int_of_digits 0 group1, (xCenter nbt, zCenter nbt)))
        else Ret None
    end
  else Ret None.

(** The map records of an enumeration of files, in its order *)
Fixpoint map_records (env : Env) (world : string) (files : list string)
    : outcome (list (Z * (Z * Z))) :=
  match files with
  | [] => Ret []
  | file :: rest =>
      o <-? map_record env world file ;;
      recs <-? map_records env world rest ;;
      Ret (match o with Some r => r :: recs | None => recs end)
  end.

(** What one map record makes of the two dictionaries *)
Definition add_record (st : maps_state) (r : Z * (Z * Z)) : maps_state :=
  let '(mapID, (x, z)) := r in
  (match dict_get string_dec (coordsKey x z) (fst st) with
   | None => dict_set string_dec (coordsKey x z) mapID (fst st)
   | Some highest =>
       if highest <? mapID
       then dict_set string_dec (coordsKey x z) mapID (fst st)
       else fst st
   end,
   dict_set Z.eq_dec mapID (x, z) (snd st)).

(** A string of decimal digits *)
Fixpoint all_digits (s : string) : bool :=
  match s with
  | EmptyString => true
  | String c s' => is_digit c && all_digits s'
  end.

(** A string without the character [c] *)
Fixpoint free_of (c : ascii) (s : string) : Prop :=
  match s with
  | EmptyString => True
  | String c' s' => c' <> c /\ free_of c s'
  end.

(** The controlled failure: one line on standard error, then [sys.exit(1)]. *)
Definition controlled_exit {A} (r : run event A) : Prop :=
  exists message, r = ([Stderr ("#ERROR: " +++ message)], Raise (SystemExit 1)).

(** The shapes the actions on one id can take *)
Definition action_shape (id : string) (l : list Action) : Prop :=
  l = [] \/ l = [Delete id] \/
  (exists x y z, l = [Add id x y z]) \/
  (exists x y z, l = [Delete id; Add id x y z]).

(** What the actions on an id make of the marker of that id *)
Definition apply_on (world : string) (o : option yaml) (a : Action) : option yaml :=
  match a with
  | Delete _ => None
  | Add id x y z =>
      Some (YMap [("world", YStr world); ("label", YStr id);
                  ("x", YInt x); ("y", YInt y); ("z", YInt z)])
  end.

(** A marker with the two fields the loop of [loadMarkers] reads *)
Definition labelled (m : yaml) : Prop :=
  exists w l, py_getitem m "world" = Ret w /\ py_getitem m "label" = Ret l.

(** What the two dictionaries hold once the records [recs] are in. *)
Record maps_inv (recs : list (Z * (Z * Z))) (st : maps_state) : Prop := {
  inv_all : forall i c, dict_get Z.eq_dec i (snd st) = Some c -> In (i, c) recs;
  inv_all_mem : forall i c, In (i, c) recs -> dict_mem Z.eq_dec i (snd st) = true;
  inv_high : forall k i, dict_get string_dec k (fst st) = Some i ->
    exists x z, k = coordsKey x z /\ In (i, (x, z)) recs /\
                forall j, In (j, (x, z)) recs -> j <= i;
  inv_key : forall i x z, In (i, (x, z)) recs ->
    dict_mem string_dec (coordsKey x z) (fst st) = true;
  inv_nodup : NoDup (keys (fst st))
}.

(** The entry of the table for an item of [highestMapID] *)
Definition table_entry (allMaps : dict Z (Z * Z)) (item : string * Z)
    : string * (Z * Z) :=
  (str (snd item),
   match dict_get Z.eq_dec (snd item) allMaps with
   | Some c => c
   | None => (0, 0)
   end).

(** Map numbers identify the records: two records of one number have one
    centre (a file is one record, and no two files share a number). *)
Definition ids_identify (recs : list (Z * (Z * Z))) : Prop :=
  forall i c c', In (i, c) recs -> In (i, c') recs -> c = c'.

(** [i] is the highest number among the records centred at [c]. *)
Definition highest_at (recs : list (Z * (Z * Z))) (c : Z * Z) (i : Z) : Prop :=
  In (i, c) recs /\ forall j, In (j, c) recs -> j <= i.

(** A path of the exact form [<folder>/map_<digits>.dat] *)
Definition exact_name (file : string) : Prop :=
  exists folder digits,
    file = folder +++ "/map_" +++ digits +++ ".dat" /\
    free_of "010" folder /\ digits <> "" /\ all_digits digits = true.

(** The console command of an action *)
Definition command (server markerSet world : string) (a : Action) : list event :=
  fst (perform server markerSet world a).

(** A string of zeros *)
Fixpoint all_zeros (s : string) : bool :=
  match s with
  | EmptyString => true
  | String c s' => Ascii.eqb c "0" && all_zeros s'
  end.

(** An action that is no delete of the id of a map *)
Definition no_delete_of (maps : dict string (Z * Z)) (a : Action) : Prop :=
  match a with
  | Delete id => ~ In id (keys maps)
  | Add _ _ _ _ => True
  end.

(** Every delete of a map id is followed at once by the add of that map. *)
Definition deletes_paired (maps : dict string (Z * Z)) (l : list Action) : Prop :=
  forall before id after,
    l = before ++ Delete id :: after -> In id (keys maps) ->
    exists x z rest, In (id, (x, z)) maps /\ after = Add id x MARKER_Y z :: rest.

(* ===================================================================== *)
(** ** Sample inputs *)
(* ===================================================================== *)

(** An interpreter whose [int] refuses every string *)
Definition no_int_of_str (s : string) : outcome Z := Raise ValueError.

(** A server directory without map files, and what reading the markers
    file yields. *)
Definition env_markers (loaded : loaded) : Env :=
  {| isfile := fun _ => true;
     isdir := fun _ => true;
     glob := fun _ => [];
     nbt_load := fun _ => Raise IOError;
     safe_load := fun _ => loaded |}.

(** A marker as dynmap stores it *)
Definition marker (world label : string) (x y z : Z) : yaml :=
  YMap [("world", YStr world); ("label", YStr label);
        ("x", YInt x); ("y", YInt y); ("z", YInt z)].

(** A markers file with one set *)
Definition markers_doc (set : string) (markers : list (string * yaml)) : yaml :=
  YMap [("sets", YMap [(set, YMap [("hide", YBool false); ("markers", YMap markers)])])].

(** A data directory: the paths [glob.glob] returns and the map data each
    decodes to; no markers file. *)
Definition env_maps (files : list (string * MapData)) : Env :=
  {| isfile := fun _ => false;
     isdir := fun _ => true;
     glob := fun _ => keys files;
     nbt_load := fun file =>
       match dict_get string_dec file files with
       | Some nbt => Ret nbt
       | None => Raise IOError
       end;
     safe_load := fun _ => Unopenable |}.

(** A server: its map files and its markers file *)
Definition env_server (files : list (string * MapData)) (markers : yaml) : Env :=
  {| isfile := fun _ => true;
     isdir := fun _ => true;
     glob := fun _ => keys files;
     nbt_load := fun file =>
       match dict_get string_dec file files with
       | Some nbt => Ret nbt
       | None => Raise IOError
       end;
     safe_load := fun _ => Document markers |}.

Definition overworld (x z : Z) : MapData :=
  {| dimension := "minecraft:world"; scale := 0; xCenter := x; zCenter := z |}.

(** Maps 7 and 12 drawn at the same place, a zoomed-out map 3 and a
    map 9 of the nether *)
Definition sample_maps : list (string * MapData) :=
  [("data/map_7.dat", overworld 0 0);
   ("data/map_12.dat", overworld 0 0);
   ("data/map_3.dat",
    {| dimension := "minecraft:world"; scale := 2; xCenter := 64; zCenter := 64 |});
   ("data/map_9.dat",
    {| dimension := "minecraft:the_nether"; scale := 0; xCenter := 8; zCenter := 8 |});
   ("data/map_5.dat", overworld 100 (-200))].

Set Implicit Arguments.

(* ===================================================================== *)
(** ** Facts about the run time *)
(* ===================================================================== *)

Section DictFacts.
Variables K V : Type.
Variable K_eq_dec : forall a b : K, {a = b} + {a <> b}.

#[local] Abbreviation dict_get := (dict_get K_eq_dec).
#[local] Abbreviation dict_mem := (dict_mem K_eq_dec).
#[local] Abbreviation dict_set := (dict_set K_eq_dec).
#[local] Abbreviation dict_del := (dict_del K_eq_dec).
#[local] Abbreviation dict := (dict K V).

Lemma dict_get_In (k : K) (v : V) (d : dict) : dict_get k d = Some v -> In (k, v) d.
Proof.
  induction d as [|[k' v'] d IH]; simpl; [discriminate|].
  destruct (K_eq_dec k k') as [->|]; [intros [= ->]; now left | auto].
Qed.

Lemma dict_get_None (k : K) (d : dict) : dict_get k d = None <-> ~ In k (keys d).
Proof.
  induction d as [|[k' v'] d IH]; simpl; [tauto|].
  destruct (K_eq_dec k k') as [->|Hne].
  - split; [discriminate | intros H; exfalso; apply H; now left].
  - rewrite IH. split; [intros H [E|I]; [congruence | tauto] | tauto].
Qed.

Lemma dict_get_Some_key (k : K) (v : V) (d : dict) : dict_get k d = Some v -> In k (keys d).
Proof. intros H. apply dict_get_In in H. now apply (in_map fst) in H. Qed.

Lemma In_keys_get (k : K) (d : dict) : In k (keys d) -> exists v, dict_get k d = Some v.
Proof.
  intros H. destruct (dict_get k d) as [v|] eqn:E; [eauto|].
  now apply dict_get_None in E.
Qed.

Lemma dict_mem_true (k : K) (d : dict) : dict_mem k d = true <-> In k (keys d).
Proof.
  unfold dict_mem. split.
  - destruct (dict_get k d) eqn:E; [intros _|discriminate].
    eapply dict_get_Some_key; eauto.
  - intros H. apply In_keys_get in H as [v ->]. reflexivity.
Qed.

Lemma dict_mem_false (k : K) (d : dict) : dict_mem k d = false <-> ~ In k (keys d).
Proof.
  rewrite <- dict_mem_true. destruct (dict_mem k d); split; congruence.
Qed.

Lemma In_dict_get (k : K) (v : V) (d : dict) : NoDup (keys d) -> In (k, v) d -> dict_get k d = Some v.
Proof.
  induction d as [|[k' v'] d IH]; simpl; [tauto|].
  intros ND [E|I].
  - injection E as -> ->. destruct (K_eq_dec k k); [reflexivity|congruence].
  - inversion ND as [|? ? Hn ND']; subst.
    destruct (K_eq_dec k k') as [->|]; [|auto].
    exfalso. apply Hn. now apply (in_map fst) in I.
Qed.

Lemma dict_get_set_eq (k : K) (v : V) (d : dict) : dict_get k (dict_set k v d) = Some v.
Proof.
  induction d as [|[k' v'] d IH]; simpl.
  - destruct (K_eq_dec k k); [reflexivity|congruence].
  - destruct (K_eq_dec k k') as [->|Hne]; simpl.
    + destruct (K_eq_dec k' k'); [reflexivity|congruence].
    + destruct (K_eq_dec k k'); [congruence|exact IH].
Qed.

Lemma dict_get_set_ne (k : K) (k' : K) (v : V) (d : dict) : k <> k' -> dict_get k' (dict_set k v d) = dict_get k' d.
Proof.
  intros Hne. induction d as [|[k1 v1] d IH]; simpl.
  - destruct (K_eq_dec k' k); [congruence|reflexivity].
  - destruct (K_eq_dec k k1) as [->|]; simpl.
    + destruct (K_eq_dec k' k1); [congruence|reflexivity].
    + destruct (K_eq_dec k' k1); [reflexivity|exact IH].
Qed.

Lemma keys_set (k : K) (v : V) (d : dict) :
  keys (dict_set k v d) = if dict_mem k d then keys d else keys d ++ [k].
Proof.
  unfold dict_mem. induction d as [|[k1 v1] d IH]; simpl; [reflexivity|].
  destruct (K_eq_dec k k1) as [->|]; simpl; [reflexivity|].
  rewrite IH. now destruct (dict_get k d).
Qed.

Lemma NoDup_keys_set (k : K) (v : V) (d : dict) : NoDup (keys d) -> NoDup (keys (dict_set k v d)).
Proof.
  intros ND. rewrite keys_set. destruct (dict_mem k d) eqn:E; [exact ND|].
  apply dict_mem_false in E.
  apply NoDup_rev in ND. rewrite <- (rev_involutive (keys d ++ [k])).
  apply NoDup_rev. rewrite rev_app_distr. simpl. constructor; [|exact ND].
  now rewrite <- in_rev.
Qed.

Lemma dict_set_fresh (k : K) (v : V) (d : dict) : dict_mem k d = false -> dict_set k v d = d ++ [(k, v)].
Proof.
  unfold dict_mem. induction d as [|[k1 v1] d IH]; simpl; [reflexivity|].
  destruct (K_eq_dec k k1); [discriminate|].
  intros H. now rewrite IH.
Qed.

Lemma dict_get_del_eq (k : K) (d : dict) : dict_get k (dict_del k d) = None.
Proof.
  induction d as [|[k1 v1] d IH]; simpl; [reflexivity|].
  destruct (K_eq_dec k k1) as [->|Hne]; [exact IH|]. simpl.
  destruct (K_eq_dec k k1); [congruence|exact IH].
Qed.

Lemma dict_get_del_ne (k : K) (k' : K) (d : dict) : k <> k' -> dict_get k' (dict_del k d) = dict_get k' d.
Proof.
  intros Hne. induction d as [|[k1 v1] d IH]; simpl; [reflexivity|].
  destruct (K_eq_dec k k1) as [->|]; simpl.
  - destruct (K_eq_dec k' k1); [congruence|exact IH].
  - destruct (K_eq_dec k' k1); [reflexivity|exact IH].
Qed.

Lemma dict_get_app (k : K) (d1 : dict) (d2 : dict) :
  dict_get k (d1 ++ d2) =
  match dict_get k d1 with Some v => Some v | None => dict_get k d2 end.
Proof.
  induction d1 as [|[k1 v1] d1 IH]; simpl; [reflexivity|].
  destruct (K_eq_dec k k1); [reflexivity|exact IH].
Qed.

End DictFacts.

Section RunFacts.
Variables E A : Type.

Lemma bind_ret_l (B : Type) (a : A) (k : A -> run E B) : bind (ret a) k = k a.
Proof. unfold bind, ret. destruct (k a). reflexivity. Qed.

Lemma bind_raise (B : Type) (t : list E) (e : exn) (k : A -> run E B) :
  bind (t, Raise e) k = (t, Raise e).
Proof. reflexivity. Qed.

(** A loop whose passes all end normally emits the passes' events in turn. *)
Lemma for_each_ok (l : list A) (body : A -> run E unit) :
  (forall x, In x l -> snd (body x) = Ret tt) ->
  for_each l body = (flat_map (fun x => fst (body x)) l, Ret tt).
Proof.
  induction l as [|x l IH]; intros H; simpl; [reflexivity|].
  assert (Hx : snd (body x) = Ret tt) by (apply H; now left).
  destruct (body x) as [t r]; simpl in *; subst r.
  rewrite IH by (intros; apply H; now right). reflexivity.
Qed.

(** A loop that ends normally has run all its passes normally. *)
Lemma for_each_Ret_inv (l : list A) (body : A -> run E unit) (t : list E) :
  for_each l body = (t, Ret tt) ->
  (forall x, In x l -> snd (body x) = Ret tt) /\
  t = flat_map (fun x => fst (body x)) l.
Proof.
  revert t. induction l as [|x l IH]; intros t; simpl.
  - intros [= <-]. split; [tauto|reflexivity].
  - destruct (body x) as [t1 [[]|e]] eqn:Hb; simpl; [|discriminate].
    destruct (for_each l body) as [t2 r2] eqn:Hl.
    intros [= <- ->]. destruct (IH t2 eq_refl) as [Hall ->].
    split; [|reflexivity].
    intros y [<-|Hy]; [now rewrite Hb | auto].
Qed.

(** Whatever the end of a loop, its events are those of the passes of an
    initial part of the list. *)
Lemma for_each_events (l : list A) (body : A -> run E unit) :
  exists l1 l2, l = l1 ++ l2 /\
    fst (for_each l body) = flat_map (fun x => fst (body x)) l1.
Proof.
  induction l as [|x l (l1 & l2 & Hl & Ht)]; simpl.
  - exists [], []. split; reflexivity.
  - destruct (body x) as [t1 [[]|e]] eqn:Hb; simpl.
    + destruct (for_each l body) as [t2 r2]. simpl in *.
      exists (x :: l1), l2. split; [now rewrite Hl|].
      simpl. now rewrite Hb, Ht.
    + exists [x], l. split; [reflexivity|]. simpl. rewrite Hb. simpl.
      now rewrite app_nil_r.
Qed.
End RunFacts.

Unset Implicit Arguments.

(* ===================================================================== *)
(** ** The command line *)
(* ===================================================================== *)

(** C8. The script takes exactly five positional arguments: with any
    other number of them it prints the usage text to standard error and
    leaves with status 1, and that is all it does: nothing is read, no
    command is sent. With five arguments it does something else. *)
Theorem usage_on_wrong_argument_count
    (int_of_str : string -> outcome Z) (env : Env) (argv0 : string) (args : list string) :
  (List.length args <> 5%nat ->
   main int_of_str env argv0 args = ([Stderr (usage_text argv0)], Raise (SystemExit 1)) /\
   exit_status (snd (main int_of_str env argv0 args)) = 1) /\
  (List.length args = 5%nat ->
   main int_of_str env argv0 args <> ([Stderr (usage_text argv0)], Raise (SystemExit 1))).
Proof.
  split.
  - intros Hlen.
    assert (H : main int_of_str env argv0 args
                = ([Stderr (usage_text argv0)], Raise (SystemExit 1))).
    { destruct args as [|a1 [|a2 [|a3 [|a4 [|a5 [|a6 rest]]]]]];
        try reflexivity.
      simpl in Hlen. congruence. }
    rewrite H. split; reflexivity.
  - intros Hlen.
    destruct args as [|server [|world [|mapsDir [|file [|markerSet [|a6 rest]]]]]];
      try discriminate Hlen.
    unfold main. cbn [List.length Nat.eqb negb]. rewrite bind_ret_l.
    destruct (isfile env file); cbn [negb].
    + rewrite bind_ret_l. destruct (isdir env mapsDir); cbn [negb].
      * rewrite bind_ret_l. unfold serverCommand, emit. unfold bind at 1.
        destruct (bind _ _) as [t r]. discriminate.
      * discriminate.
    + discriminate.
Qed.

Lemma usage_on_wrong_argument_count_witness :
  List.length ["pve"; "world"] <> 5%nat /\
  main no_int_of_str (env_markers Unopenable) "mapmarkers.py" ["pve"; "world"]
  = ([Stderr (usage_text "mapmarkers.py")], Raise (SystemExit 1)).
Proof.
  split; [simpl; lia|].
  apply (proj1 (usage_on_wrong_argument_count no_int_of_str (env_markers Unopenable)
                  "mapmarkers.py" ["pve"; "world"])).
  simpl; lia.
Defined.

(* ===================================================================== *)
(** ** The errors of loadMarkers *)
(* ===================================================================== *)

Lemma loadMarkers_IOError env file markerSet world :
  safe_load env file = Unopenable ->
  loadMarkers env file markerSet world =
  ([Stderr ("#ERROR: cannot open markers file " +++ file +++ dq +++ " to read!")],
   Raise (SystemExit 1)).
Proof. intros H. unfold loadMarkers. rewrite H. reflexivity. Qed.

Lemma loadMarkers_no_sets env file markerSet world doc :
  safe_load env file = Document doc ->
  py_in "sets" doc = Ret false ->
  loadMarkers env file markerSet world =
  ([Stderr ("#ERROR: " +++ dq +++ file +++ dq +++ " doesn't seem to be a markers file!")],
   Raise (SystemExit 1)).
Proof. intros H Hin. unfold loadMarkers. rewrite H. simpl. rewrite Hin. reflexivity. Qed.

Lemma loadMarkers_with_sets env file markerSet world doc :
  safe_load env file = Document doc ->
  py_in "sets" doc = Ret true ->
  loadMarkers env file markerSet world =
  ([], items <-? set_items doc markerSet ;; loadMarkers_loop world items []).
Proof.
  intros H Hin. unfold loadMarkers. rewrite H. simpl. rewrite Hin. simpl.
  now destruct (rbind _ _).
Qed.

Lemma py_getitem_no_exit v k status : py_getitem v k <> Raise (SystemExit status).
Proof.
  destruct v; simpl; try discriminate.
  unfold getitem. destruct (dict_get _ _ _); discriminate.
Qed.

Lemma loadMarkers_loop_no_exit world items acc status :
  loadMarkers_loop world items acc <> Raise (SystemExit status).
Proof.
  revert acc. induction items as [|[id m] items IH]; intros acc; simpl; [discriminate|].
  destruct (py_getitem m "world") as [w|e] eqn:Hw; simpl.
  - destruct (py_eq_str w world); [|apply IH].
    destruct (py_getitem m "label") as [l|e] eqn:Hlab; simpl.
    + destruct (py_eq_str l id); apply IH.
    + intros [= ->]. now apply py_getitem_no_exit in Hlab.
  - intros [= ->]. now apply py_getitem_no_exit in Hw.
Qed.

(** C7, as the code has it. [loadMarkers] prints an error message to
    standard error and exits with status 1 whenever opening or reading the
    markers file raises [IOError], and whenever the parsed document is a
    mapping without the key ['sets'] (or a sequence or a string in which
    ['sets' in] finds nothing). *)
Theorem loadMarkers_fatal_errors env file markerSet world :
  safe_load env file = Unopenable \/
  (exists doc, safe_load env file = Document doc /\ py_in "sets" doc = Ret false) ->
  controlled_exit (loadMarkers env file markerSet world) /\
  exit_status (snd (loadMarkers env file markerSet world)) = 1.
Proof.
  intros [H|(doc & H & Hin)].
  - rewrite (loadMarkers_IOError _ _ _ _ H). split; [|reflexivity].
    eexists. reflexivity.
  - rewrite (loadMarkers_no_sets _ _ _ _ _ H Hin). split; [|reflexivity].
    eexists. reflexivity.
Qed.

Lemma loadMarkers_fatal_errors_witness :
  controlled_exit (loadMarkers (env_markers (Document (YMap [("isdefault", YBool true)])))
                     "markers.yml" "markers" "world").
Proof.
  apply (loadMarkers_fatal_errors (env_markers (Document (YMap [("isdefault", YBool true)])))
           "markers.yml" "markers" "world").
  right. eexists. split; reflexivity.
Defined.

(** C7, as the specification words it, fails. A markers file whose bytes
    are no text cannot be read, one whose text is no YAML cannot be
    parsed, and an empty one parses to a document without ['sets']: in
    each case an exception that nothing catches ends the run, and no
    error message of the script is printed. *)
Lemma loadMarkers_uncontrolled_failures :
  (loadMarkers (env_markers Undecodable) "markers.yml" "markers" "world"
     = ([], Raise ValueError) /\
   ~ controlled_exit (loadMarkers (env_markers Undecodable) "markers.yml" "markers" "world")) /\
  (loadMarkers (env_markers Malformed) "markers.yml" "markers" "world"
     = ([], Raise YAMLError) /\
   ~ controlled_exit (loadMarkers (env_markers Malformed) "markers.yml" "markers" "world")) /\
  (loadMarkers (env_markers (Document YNull)) "markers.yml" "markers" "world"
     = ([], Raise TypeError) /\
   ~ controlled_exit (loadMarkers (env_markers (Document YNull)) "markers.yml" "markers" "world")).
Proof.
  repeat split; try reflexivity; intros [m Hm]; discriminate Hm.
Qed.

(** C9. With ['sets'] in the document, a marker set that is not under it,
    or one without ['markers'], ends the run by a [KeyError] that nothing
    catches; the error message followed by [sys.exit(1)] is reached only
    when the file cannot be opened or ['sets'] is missing. *)
Theorem loadMarkers_KeyError :
  (forall env file markerSet world doc sets,
      safe_load env file = Document (YMap doc) ->
      dict_get string_dec "sets" doc = Some (YMap sets) ->
      dict_get string_dec markerSet sets = None ->
      loadMarkers env file markerSet world = ([], Raise KeyError)) /\
  (forall env file markerSet world doc sets set,
      safe_load env file = Document (YMap doc) ->
      dict_get string_dec "sets" doc = Some (YMap sets) ->
      dict_get string_dec markerSet sets = Some (YMap set) ->
      dict_get string_dec "markers" set = None ->
      loadMarkers env file markerSet world = ([], Raise KeyError)) /\
  (forall env file markerSet world events status,
      loadMarkers env file markerSet world = (events, Raise (SystemExit status)) ->
      status = 1 /\
      (safe_load env file = Unopenable \/
       exists doc, safe_load env file = Document doc /\ py_in "sets" doc = Ret false)).
Proof.
  split; [|split].
  - intros env file markerSet world doc sets H Hs Hm.
    rewrite (loadMarkers_with_sets _ _ _ _ _ H).
    + unfold set_items. simpl. unfold getitem. rewrite Hs. simpl.
      unfold getitem. rewrite Hm. reflexivity.
    + simpl. unfold dict_mem. now rewrite Hs.
  - intros env file markerSet world doc sets set H Hs Hm Hk.
    rewrite (loadMarkers_with_sets _ _ _ _ _ H).
    + unfold set_items. simpl. unfold getitem. rewrite Hs. simpl.
      unfold getitem. rewrite Hm. simpl. unfold getitem. rewrite Hk. reflexivity.
    + simpl. unfold dict_mem. now rewrite Hs.
  - intros env file markerSet world events status H.
    destruct (safe_load env file) as [ | | |doc] eqn:Hl.
    + rewrite (loadMarkers_IOError _ _ _ _ Hl) in H.
      injection H as _ <-. split; [reflexivity|]. now left.
    + unfold loadMarkers in H. rewrite Hl in H. discriminate H.
    + unfold loadMarkers in H. rewrite Hl in H. discriminate H.
    + destruct (py_in "sets" doc) as [[|]|e] eqn:Hin.
      * rewrite (loadMarkers_with_sets _ _ _ _ _ Hl Hin) in H.
        exfalso. injection H as _ H. revert H. unfold set_items.
        destruct (py_getitem doc "sets") as [v1|e1] eqn:H1; simpl;
          [|intros [= ->]; now apply py_getitem_no_exit in H1].
        destruct (py_getitem v1 markerSet) as [v2|e2] eqn:H2; simpl;
          [|intros [= ->]; now apply py_getitem_no_exit in H2].
        destruct (py_getitem v2 "markers") as [v3|e3] eqn:H3; simpl;
          [|intros [= ->]; now apply py_getitem_no_exit in H3].
        destruct v3; simpl; try discriminate. apply loadMarkers_loop_no_exit.
      * rewrite (loadMarkers_no_sets _ _ _ _ _ Hl Hin) in H.
        injection H as _ <-. split; [reflexivity|]. right. eauto.
      * unfold loadMarkers in H. rewrite Hl in H. simpl in H. rewrite Hin in H.
        simpl in H. injection H as _ ->.
        destruct doc; simpl in Hin; discriminate.
Qed.

Lemma loadMarkers_KeyError_witness :
  loadMarkers (env_markers (Document (markers_doc "markers" []))) "markers.yml" "maps" "world"
  = ([], Raise KeyError).
Proof.
  apply (proj1 loadMarkers_KeyError
           (env_markers (Document (markers_doc "markers" []))) "markers.yml" "maps" "world"
           [("sets", YMap [("markers", YMap [("hide", YBool false); ("markers", YMap [])])])]
           [("markers", YMap [("hide", YBool false); ("markers", YMap [])])]);
    reflexivity.
Defined.

(* ===================================================================== *)
(** ** The two loops *)
(* ===================================================================== *)

Lemma actions_on_app id l1 l2 :
  actions_on id (l1 ++ l2) = actions_on id l1 ++ actions_on id l2.
Proof. apply filter_app. Qed.

Lemma actions_on_all id l :
  (forall a, In a l -> target a = id) -> actions_on id l = l.
Proof.
  intros H. unfold actions_on. apply forallb_filter_id. apply forallb_forall.
  intros a Ha. apply String.eqb_eq. now apply H.
Qed.

Lemma actions_on_none id l :
  (forall a, In a l -> target a <> id) -> actions_on id l = [].
Proof.
  induction l as [|a l IH]; intros H; [reflexivity|]. simpl.
  destruct (String.eqb_spec (target a) id) as [E|_].
  - exfalso. apply (H a); [now left | exact E].
  - apply IH. intros b Hb. apply H. now right.
Qed.

Section ActionsOnLoop.
Variable X : Type.
Variable key : X -> string.
Variable g : X -> list Action.
Hypothesis g_target : forall x a, In a (g x) -> target a = key x.

Lemma actions_on_flat_map_out id l :
  ~ In id (map key l) -> actions_on id (flat_map g l) = [].
Proof.
  intros Hid. apply actions_on_none. intros a Ha.
  apply in_flat_map in Ha as (x & Hx & Hax).
  rewrite (g_target _ _ Hax). intros <-. apply Hid. now apply in_map.
Qed.

Lemma actions_on_flat_map_in x l :
  NoDup (map key l) -> In x l -> actions_on (key x) (flat_map g l) = g x.
Proof.
  induction l as [|y l IH]; intros ND Hx; [contradiction|].
  simpl in *. inversion ND as [|? ? Hy ND']; subst.
  rewrite actions_on_app. destruct Hx as [->|Hx].
  - rewrite (actions_on_all (key x) (g x)) by (intros; now apply g_target).
    rewrite actions_on_flat_map_out by exact Hy. apply app_nil_r.
  - rewrite (actions_on_none (key x) (g y)).
    + now apply IH.
    + intros a Ha. rewrite (g_target _ _ Ha). intros E. apply Hy.
      rewrite E. now apply in_map.
Qed.
End ActionsOnLoop.

(** The deletion loop never fails. *)
Lemma delete_unused_run maps markers :
  delete_unused (fun id => emit (Delete id)) maps markers
  = (flat_map (delete_one maps) (keys markers), Ret tt).
Proof.
  unfold delete_unused. rewrite for_each_ok.
  - f_equal. apply flat_map_ext. intros id. unfold delete_one.
    now destruct (dict_mem string_dec id maps).
  - intros id _. now destruct (dict_mem string_dec id maps).
Qed.

Lemma update_markers_run int_of_str maps markers :
  update_markers int_of_str (fun id => emit (Delete id))
    (fun id x y z => emit (Add id x y z)) maps markers
  = for_each maps (update_one int_of_str markers).
Proof. reflexivity. Qed.

Lemma reconcile_run int_of_str maps markers :
  reconcile int_of_str maps markers =
  (flat_map (delete_one maps) (keys markers)
     ++ fst (for_each maps (update_one int_of_str markers)),
   snd (for_each maps (update_one int_of_str markers))).
Proof.
  unfold reconcile, loops. rewrite delete_unused_run, update_markers_run.
  unfold bind. now destruct (for_each _ _).
Qed.

Lemma delete_one_target maps id a : In a (delete_one maps id) -> target a = id.
Proof.
  unfold delete_one. destruct (dict_mem string_dec id maps); [contradiction|].
  intros [<-|[]]. reflexivity.
Qed.

(** What one pass of the update loop does, by cases. *)
Lemma update_one_cases int_of_str markers id x z :
  match dict_get string_dec id markers with
  | None => update_one int_of_str markers (id, (x, z)) = ([Add id x MARKER_Y z], Ret tt)
  | Some m =>
      match differs int_of_str (x, z) m with
      | Ret true =>
          update_one int_of_str markers (id, (x, z))
          = ([Delete id; Add id x MARKER_Y z], Ret tt)
      | Ret false => update_one int_of_str markers (id, (x, z)) = ([], Ret tt)
      | Raise e => update_one int_of_str markers (id, (x, z)) = ([], Raise e)
      end
  end.
Proof.
  unfold update_one. destruct (dict_get string_dec id markers) as [m|]; [|reflexivity].
  destruct (differs int_of_str (x, z) m) as [[|]|e]; reflexivity.
Qed.

Lemma update_one_target int_of_str markers entry a :
  In a (fst (update_one int_of_str markers entry)) -> target a = fst entry.
Proof.
  destruct entry as [id [x z]]. intros Ha.
  pose proof (update_one_cases int_of_str markers id x z) as H.
  destruct (dict_get string_dec id markers) as [m|].
  - destruct (differs int_of_str (x, z) m) as [[|]|e]; rewrite H in Ha; simpl in Ha;
      intuition (subst; reflexivity).
  - rewrite H in Ha. simpl in Ha. intuition (subst; reflexivity).
Qed.

Lemma update_one_shape int_of_str markers id d :
  action_shape id (fst (update_one int_of_str markers (id, d))).
Proof.
  destruct d as [x z].
  pose proof (update_one_cases int_of_str markers id x z) as H.
  unfold action_shape.
  destruct (dict_get string_dec id markers) as [m|].
  - destruct (differs int_of_str (x, z) m) as [[|]|e]; rewrite H; simpl; eauto 7.
  - rewrite H; simpl; eauto 7.
Qed.

Lemma NoDup_keys_app_l {V} (l1 l2 : dict string V) :
  NoDup (keys (l1 ++ l2)) -> NoDup (keys l1).
Proof.
  unfold keys. rewrite map_app. intros H. now apply NoDup_app_remove_r in H.
Qed.

(** C4. In the actions of one run the actions on any one id are none, a
    delete, an add, or a delete followed by an add: no add comes before a
    delete of the same id, and no id gets two deletes or two adds. This
    holds of every run, also of one that an exception cuts short. *)
Theorem per_id_action_shape int_of_str maps markers id :
  NoDup (keys maps) -> NoDup (keys markers) ->
  action_shape id (actions_on id (fst (reconcile int_of_str maps markers))).
Proof.
  intros NDmaps NDmarkers. rewrite reconcile_run. simpl.
  destruct (for_each_events maps (update_one int_of_str markers))
    as (l1 & l2 & Hl & ->).
  rewrite actions_on_app.
  assert (ND1 : NoDup (map fst l1)).
  { rewrite Hl in NDmaps. now apply NoDup_keys_app_l in NDmaps. }
  destruct (in_dec string_dec id (map fst l1)) as [Hin|Hout].
  - (* an id of the maps: the deletion loop leaves it alone *)
    assert (Hmaps : In id (keys maps)).
    { rewrite Hl. unfold keys. rewrite map_app. apply in_or_app. now left. }
    rewrite (actions_on_none id (flat_map (delete_one maps) (keys markers))).
    + simpl. apply in_map_iff in Hin as ([id' d] & <- & Hx).
      rewrite (actions_on_flat_map_in _ fst _
                 (update_one_target int_of_str markers) (id', d) l1 ND1 Hx).
      apply update_one_shape.
    + intros a Ha. apply in_flat_map in Ha as (k & _ & Hak).
      unfold delete_one in Hak.
      destruct (dict_mem string_dec k maps) eqn:Hk; [contradiction|].
      destruct Hak as [<-|[]]. simpl. intros ->.
      apply dict_mem_false in Hk. contradiction.
  - rewrite (actions_on_flat_map_out _ fst _
               (update_one_target int_of_str markers) id l1 Hout).
    rewrite app_nil_r.
    destruct (in_dec string_dec id (keys markers)) as [Hm|Hm].
    + rewrite <- (map_id (keys markers)) in NDmarkers.
      rewrite (actions_on_flat_map_in _ (fun k => k) _ (delete_one_target maps)
                 id (keys markers) NDmarkers Hm).
      unfold delete_one, action_shape.
      destruct (dict_mem string_dec id maps); auto.
    + rewrite (actions_on_flat_map_out _ (fun k => k) _ (delete_one_target maps)).
      * left. reflexivity.
      * now rewrite map_id.
Qed.

Lemma per_id_action_shape_witness :
  action_shape "5"
    (actions_on "5"
       (fst (reconcile no_int_of_str [("5", (100, -200)); ("8", (0, 0))]
               [("3", marker "world" "3" 1 64 1); ("5", marker "world" "5" 50 64 (-200))]))).
Proof.
  apply (per_id_action_shape no_int_of_str [("5", (100, -200)); ("8", (0, 0))]
           [("3", marker "world" "3" 1 64 1); ("5", marker "world" "5" 50 64 (-200))] "5").
  - repeat constructor; simpl; intuition discriminate.
  - repeat constructor; simpl; intuition discriminate.
Defined.

Lemma differs_position int_of_str m x z mx my mz :
  position int_of_str m = Ret (mx, my, mz) ->
  differs int_of_str (x, z) m
  = Ret (negb ((x =? mx) && (MARKER_Y =? my) && (z =? mz))).
Proof.
  unfold position, differs.
  destruct (coordinate int_of_str m "x") as [cx|]; cbn [rbind]; [|discriminate].
  destruct (coordinate int_of_str m "y") as [cy|]; cbn [rbind]; [|discriminate].
  destruct (coordinate int_of_str m "z") as [cz|]; cbn [rbind]; [|discriminate].
  intros [= -> -> ->]. cbn [fst snd].
  destruct (x =? mx); cbn [negb andb]; [|reflexivity].
  destruct (MARKER_Y =? my); reflexivity.
Qed.

Lemma position_eqb x z mx my mz :
  (x =? mx) && (MARKER_Y =? my) && (z =? mz) = true <-> (mx, my, mz) = (x, MARKER_Y, z).
Proof.
  rewrite !andb_true_iff, !Z.eqb_eq. split.
  - intros [[-> <-] ->]. reflexivity.
  - intros [= -> -> ->]. auto.
Qed.

(** The actions of a complete run on one id *)
Lemma actions_on_reconcile int_of_str maps markers actions id :
  NoDup (keys maps) -> NoDup (keys markers) ->
  reconcile int_of_str maps markers = (actions, Ret tt) ->
  actions_on id actions =
  match dict_get string_dec id maps with
  | Some d => fst (update_one int_of_str markers (id, d))
  | None => if dict_mem string_dec id markers then [Delete id] else []
  end.
Proof.
  intros NDmaps NDmarkers. rewrite reconcile_run.
  destruct (for_each maps (update_one int_of_str markers)) as [t r] eqn:Hrun.
  simpl. intros [= <- ->].
  apply for_each_Ret_inv in Hrun as [_ ->].
  rewrite actions_on_app.
  destruct (dict_get string_dec id maps) as [d|] eqn:Hmaps.
  - rewrite (actions_on_none id (flat_map (delete_one maps) (keys markers))).
    + simpl. apply dict_get_In in Hmaps.
      apply (actions_on_flat_map_in _ fst _
               (update_one_target int_of_str markers) (id, d) maps NDmaps Hmaps).
    + intros a Ha. apply in_flat_map in Ha as (k & _ & Hak).
      unfold delete_one in Hak.
      destruct (dict_mem string_dec k maps) eqn:Hk; [contradiction|].
      destruct Hak as [<-|[]]. simpl. intros ->.
      unfold dict_mem in Hk. now rewrite Hmaps in Hk.
  - apply dict_get_None in Hmaps.
    rewrite (actions_on_flat_map_out _ fst _
               (update_one_target int_of_str markers) id maps Hmaps).
    rewrite app_nil_r.
    destruct (dict_mem string_dec id markers) eqn:Hm.
    + apply dict_mem_true in Hm.
      rewrite <- (map_id (keys markers)) in NDmarkers.
      rewrite (actions_on_flat_map_in _ (fun k => k) _ (delete_one_target maps)
                 id (keys markers) NDmarkers Hm).
      unfold delete_one. apply (dict_mem_false string_dec) in Hmaps. now rewrite Hmaps.
    + apply dict_mem_false in Hm.
      apply (actions_on_flat_map_out _ (fun k => k) _ (delete_one_target maps)).
      now rewrite map_id.
Qed.

(** A run over markers whose coordinates can all be read is complete. *)
Lemma reconcile_complete int_of_str maps markers :
  (forall id m, dict_get string_dec id markers = Some m ->
                exists p, position int_of_str m = Ret p) ->
  exists actions, reconcile int_of_str maps markers = (actions, Ret tt).
Proof.
  intros Hpos. rewrite reconcile_run.
  rewrite for_each_ok; [eexists; reflexivity|].
  intros [id [x z]] _.
  pose proof (update_one_cases int_of_str markers id x z) as H.
  destruct (dict_get string_dec id markers) as [m|] eqn:Hm; [|now rewrite H].
  destruct (Hpos id m Hm) as ([[mx my] mz] & Hp).
  rewrite (differs_position _ _ x z _ _ _ Hp) in H.
  destruct (negb _); now rewrite H.
Qed.

(** C1. Over a table of maps and a table of markers whose coordinates
    [int] reads as integers, the run is complete and its actions are
    those of the reconciler: a delete for a marker id that is no map id;
    for a map id with centre [(x, z)], an add at [(x, MARKER_Y, z)], with
    [MARKER_Y = 64], when no marker has the id, a delete followed by that
    add when the [(x, y, z)] of the marker of that id differs from
    [(x, MARKER_Y, z)], and nothing when it is equal to it; nothing for
    any other id. *)
Theorem reconciler_algorithm int_of_str maps markers :
  NoDup (keys maps) -> NoDup (keys markers) ->
  (forall id m, dict_get string_dec id markers = Some m ->
                exists p, position int_of_str m = Ret p) ->
  exists actions,
    reconcile int_of_str maps markers = (actions, Ret tt) /\
    MARKER_Y = 64 /\
    (forall id, In id (keys markers) -> ~ In id (keys maps) ->
       actions_on id actions = [Delete id]) /\
    (forall id x z, In (id, (x, z)) maps -> ~ In id (keys markers) ->
       actions_on id actions = [Add id x MARKER_Y z]) /\
    (forall id x z m p, In (id, (x, z)) maps -> In (id, m) markers ->
       position int_of_str m = Ret p -> p <> (x, MARKER_Y, z) ->
       actions_on id actions = [Delete id; Add id x MARKER_Y z]) /\
    (forall id x z m, In (id, (x, z)) maps -> In (id, m) markers ->
       position int_of_str m = Ret (x, MARKER_Y, z) ->
       actions_on id actions = []) /\
    (forall id, ~ In id (keys maps) -> ~ In id (keys markers) ->
       actions_on id actions = []).
Proof.
  intros NDmaps NDmarkers Hpos.
  destruct (reconcile_complete int_of_str maps markers Hpos) as [actions Hrun].
  exists actions. split; [exact Hrun|]. split; [reflexivity|].
  pose proof (fun id => actions_on_reconcile int_of_str maps markers actions id
                          NDmaps NDmarkers Hrun) as Hon.
  repeat split.
  - intros id Hm Hn. rewrite Hon.
    apply (dict_get_None string_dec) in Hn. rewrite Hn.
    apply (dict_mem_true string_dec) in Hm. now rewrite Hm.
  - intros id x z Hmap Hn. rewrite Hon.
    rewrite (In_dict_get string_dec _ _ _ NDmaps Hmap).
    pose proof (update_one_cases int_of_str markers id x z) as H.
    apply (dict_get_None string_dec) in Hn. rewrite Hn in H. now rewrite H.
  - intros id x z m [[mx my] mz] Hmap Hmarker Hp Hne. rewrite Hon.
    rewrite (In_dict_get string_dec _ _ _ NDmaps Hmap).
    pose proof (update_one_cases int_of_str markers id x z) as H.
    rewrite (In_dict_get string_dec _ _ _ NDmarkers Hmarker) in H.
    rewrite (differs_position _ _ x z _ _ _ Hp) in H.
    destruct ((x =? mx) && (MARKER_Y =? my) && (z =? mz)) eqn:E.
    + apply position_eqb in E. contradiction.
    + cbn [negb] in H. now rewrite H.
  - intros id x z m Hmap Hmarker Hp. rewrite Hon.
    rewrite (In_dict_get string_dec _ _ _ NDmaps Hmap).
    pose proof (update_one_cases int_of_str markers id x z) as H.
    rewrite (In_dict_get string_dec _ _ _ NDmarkers Hmarker) in H.
    rewrite (differs_position _ _ x z _ _ _ Hp) in H.
    rewrite (proj2 (position_eqb x z x MARKER_Y z) eq_refl) in H.
    cbn [negb] in H. now rewrite H.
  - intros id Hn Hm. rewrite Hon.
    apply (dict_get_None string_dec) in Hn. rewrite Hn.
    apply (dict_mem_false string_dec) in Hm. now rewrite Hm.
Qed.

Lemma reconciler_algorithm_witness :
  exists actions,
    reconcile no_int_of_str [("5", (100, -200)); ("8", (0, 0)); ("9", (16, 16))]
      [("3", marker "world" "3" 1 64 1); ("5", marker "world" "5" 50 64 (-200));
       ("9", marker "world" "9" 16 64 16)]
    = (actions, Ret tt) /\
    actions = [Delete "3"; Delete "5"; Add "5" 100 64 (-200); Add "8" 0 64 0].
Proof.
  destruct (reconciler_algorithm no_int_of_str
              [("5", (100, -200)); ("8", (0, 0)); ("9", (16, 16))]
              [("3", marker "world" "3" 1 64 1); ("5", marker "world" "5" 50 64 (-200));
               ("9", marker "world" "9" 16 64 16)])
    as (actions & Hrun & _).
  - repeat constructor; simpl; intuition discriminate.
  - repeat constructor; simpl; intuition discriminate.
  - intros id m. simpl.
    repeat (destruct (string_dec id _); [intros [= <-]; eexists; reflexivity|]).
    discriminate.
  - exists actions. split; [exact Hrun|].
    vm_compute in Hrun. now injection Hrun as <-.
Defined.

(* ===================================================================== *)
(** ** Running the reconciler twice *)
(* ===================================================================== *)

Lemma dict_get_apply_actions world actions table id :
  dict_get string_dec id (apply_actions world actions table)
  = fold_left (apply_on world) (actions_on id actions) (dict_get string_dec id table).
Proof.
  revert table. induction actions as [|a actions IH]; intros table; [reflexivity|].
  simpl. rewrite IH. destruct (String.eqb_spec (target a) id) as [E|E].
  - simpl. f_equal. destruct a as [k|k x y z]; simpl in *; subst k.
    + apply dict_get_del_eq.
    + apply dict_get_set_eq.
  - f_equal. destruct a as [k|k x y z]; simpl in *.
    + now apply dict_get_del_ne.
    + now apply dict_get_set_ne.
Qed.

Lemma differs_added int_of_str world id x z :
  differs int_of_str (x, z)
    (YMap [("world", YStr world); ("label", YStr id);
           ("x", YInt x); ("y", YInt MARKER_Y); ("z", YInt z)])
  = Ret false.
Proof.
  unfold differs, coordinate. cbn. now rewrite !Z.eqb_refl.
Qed.

Lemma flat_map_nil {A B} (f : A -> list B) (l : list A) :
  (forall x, In x l -> f x = []) -> flat_map f l = [].
Proof.
  induction l as [|x l IH]; intros H; [reflexivity|]. simpl.
  rewrite (H x) by now left. apply IH. intros; apply H; now right.
Qed.

(** C3. When the actions of a complete run are applied to the table of
    markers (a delete removes the id, an add puts a marker labelled by
    its id at the coordinates of the action) and the maps stay as they
    are, the next run over the new table emits nothing. *)
Theorem reconciler_idempotent int_of_str world maps markers actions :
  NoDup (keys maps) -> NoDup (keys markers) ->
  reconcile int_of_str maps markers = (actions, Ret tt) ->
  reconcile int_of_str maps (apply_actions world actions markers) = ([], Ret tt).
Proof.
  intros NDmaps NDmarkers Hrun.
  pose proof (fun id => actions_on_reconcile int_of_str maps markers actions id
                          NDmaps NDmarkers Hrun) as Hon.
  assert (Hbodies : forall entry, In entry maps ->
                      snd (update_one int_of_str markers entry) = Ret tt).
  { rewrite reconcile_run in Hrun.
    destruct (for_each maps (update_one int_of_str markers)) as [t r] eqn:Hfor.
    simpl in Hrun. injection Hrun as _ ->.
    now apply for_each_Ret_inv in Hfor as [H _]. }
  set (markers' := apply_actions world actions markers).
  (* the new marker of a map id is where the map is *)
  assert (Hsync : forall id x z, In (id, (x, z)) maps ->
            exists m', dict_get string_dec id markers' = Some m' /\
                       differs int_of_str (x, z) m' = Ret false).
  { intros id x z Hin. unfold markers'.
    rewrite dict_get_apply_actions, Hon.
    rewrite (In_dict_get string_dec _ _ _ NDmaps Hin).
    pose proof (update_one_cases int_of_str markers id x z) as H.
    pose proof (Hbodies _ Hin) as Hb.
    destruct (dict_get string_dec id markers) as [m|].
    - destruct (differs int_of_str (x, z) m) as [[|]|e] eqn:Hd; rewrite H in Hb |- *.
      + simpl. eexists. split; [reflexivity|]. apply differs_added.
      + simpl. eauto.
      + discriminate Hb.
    - rewrite H. simpl. eexists. split; [reflexivity|]. apply differs_added. }
  (* no marker is left whose id is no map id *)
  assert (Hprune : forall id, In id (keys markers') -> In id (keys maps)).
  { intros id Hin.
    destruct (dict_get string_dec id maps) as [d|] eqn:Hmaps;
      [eapply dict_get_Some_key; eauto|].
    exfalso. apply In_keys_get with (K_eq_dec := string_dec) in Hin as [m' Hm'].
    unfold markers' in Hm'. rewrite dict_get_apply_actions, Hon, Hmaps in Hm'.
    unfold dict_mem in Hm'.
    destruct (dict_get string_dec id markers); simpl in Hm'; discriminate. }
  rewrite reconcile_run. rewrite flat_map_nil.
  - rewrite for_each_ok.
    + rewrite flat_map_nil; [reflexivity|].
      intros [id [x z]] Hin. destruct (Hsync id x z Hin) as (m' & Hm' & Hd).
      pose proof (update_one_cases int_of_str markers' id x z) as H.
      rewrite Hm', Hd in H. now rewrite H.
    + intros [id [x z]] Hin. destruct (Hsync id x z Hin) as (m' & Hm' & Hd).
      pose proof (update_one_cases int_of_str markers' id x z) as H.
      rewrite Hm', Hd in H. now rewrite H.
  - intros id Hin. unfold delete_one.
    apply Hprune in Hin. apply (dict_mem_true string_dec) in Hin. now rewrite Hin.
Qed.

Lemma reconciler_idempotent_witness :
  reconcile no_int_of_str [("5", (100, -200)); ("8", (0, 0)); ("9", (16, 16))]
    (apply_actions "world"
       [Delete "3"; Delete "5"; Add "5" 100 64 (-200); Add "8" 0 64 0]
       [("3", marker "world" "3" 1 64 1); ("5", marker "world" "5" 50 64 (-200));
        ("9", marker "world" "9" 16 64 16)])
  = ([], Ret tt).
Proof.
  apply (reconciler_idempotent no_int_of_str "world"
           [("5", (100, -200)); ("8", (0, 0)); ("9", (16, 16))]
           [("3", marker "world" "3" 1 64 1); ("5", marker "world" "5" 50 64 (-200));
            ("9", marker "world" "9" 16 64 16)]).
  - repeat constructor; simpl; intuition discriminate.
  - repeat constructor; simpl; intuition discriminate.
  - reflexivity.
Defined.

(* ===================================================================== *)
(** ** The markers loadMarkers keeps *)
(* ===================================================================== *)

Lemma py_eq_str_true v s : py_eq_str v s = true -> v = YStr s.
Proof.
  destruct v; simpl; try discriminate. intros H.
  apply String.eqb_eq in H. now subst.
Qed.

Lemma loadMarkers_loop_filter world items acc :
  NoDup (keys acc ++ keys items) ->
  (forall id m, In (id, m) items -> labelled m) ->
  loadMarkers_loop world items acc = Ret (acc ++ filter (managed world) items).
Proof.
  revert acc. induction items as [|[id m] items IH]; intros acc ND Hlab; simpl.
  - now rewrite app_nil_r.
  - destruct (Hlab id m (or_introl eq_refl)) as (w & l & Hw & Hl).
    unfold managed at 1. simpl. rewrite Hw, Hl. simpl.
    assert (Hrest : forall id' m', In (id', m') items -> labelled m')
      by (intros; eapply Hlab; right; eauto).
    assert (ND' : NoDup (keys acc ++ keys items)).
    { simpl in ND. now apply NoDup_remove_1 in ND. }
    destruct (py_eq_str w world); simpl; [|now apply IH].
    destruct (py_eq_str l id); simpl; [|now apply IH].
    assert (Hfresh : dict_mem string_dec id acc = false).
    { apply dict_mem_false. simpl in ND. apply NoDup_remove_2 in ND.
      intros Hin. apply ND. apply in_or_app. now left. }
    rewrite (dict_set_fresh string_dec _ m _ Hfresh).
    rewrite IH.
    + now rewrite <- app_assoc.
    + unfold keys in *. rewrite map_app. simpl. rewrite <- app_assoc. exact ND.
    + exact Hrest.
Qed.

Lemma set_items_has_sets doc markerSet items :
  set_items doc markerSet = Ret items -> py_in "sets" doc = Ret true.
Proof.
  unfold set_items. destruct doc; simpl; try discriminate.
  unfold getitem, dict_mem. now destruct (dict_get string_dec "sets" entries).
Qed.

Lemma In_filter_keys {V} (f : string * V -> bool) (l : dict string V) id :
  In id (keys (filter f l)) -> In id (keys l).
Proof.
  unfold keys. rewrite !in_map_iff. intros (x & Hx & Hin).
  apply filter_In in Hin as [Hin _]. eauto.
Qed.

(** Every action of a run, complete or not, is a delete of a marker of the
    table or the add of a map at its centre. *)
Lemma reconcile_actions int_of_str maps markers a :
  In a (fst (reconcile int_of_str maps markers)) ->
  (exists id, a = Delete id /\ In id (keys markers)) \/
  (exists id x z, a = Add id x MARKER_Y z /\ In (id, (x, z)) maps).
Proof.
  rewrite reconcile_run. simpl. intros Ha. apply in_app_or in Ha as [Ha|Ha].
  - apply in_flat_map in Ha as (id & Hid & Ha). unfold delete_one in Ha.
    destruct (dict_mem string_dec id maps); [contradiction|].
    destruct Ha as [<-|[]]. left. eauto.
  - destruct (for_each_events maps (update_one int_of_str markers))
      as (l1 & l2 & Hl & Ht).
    rewrite Ht in Ha. apply in_flat_map in Ha as ([id [x z]] & Hin & Ha).
    assert (Hmaps : In (id, (x, z)) maps) by (rewrite Hl; apply in_or_app; now left).
    pose proof (update_one_cases int_of_str markers id x z) as H.
    destruct (dict_get string_dec id markers) as [m|] eqn:Hm.
    + destruct (differs int_of_str (x, z) m) as [[|]|e]; rewrite H in Ha; simpl in Ha.
      * destruct Ha as [<-|[<-|[]]].
        -- left. exists id. split; [reflexivity|]. eapply dict_get_Some_key; eauto.
        -- right. eauto.
      * contradiction.
      * contradiction.
    + rewrite H in Ha. destruct Ha as [<-|[]]. right. eauto.
Qed.

(** C5, as the code has it. Of the markers of the set, [loadMarkers]
    returns those whose world is the target world and whose label is
    their id, in their order, and no other. The id of a marker it leaves
    out is never deleted; it is added only when a map has that same id,
    and then at the centre of that map. *)
Theorem loadMarkers_filter int_of_str env file markerSet world doc items :
  safe_load env file = Document doc ->
  set_items doc markerSet = Ret items ->
  NoDup (keys items) ->
  (forall id m, In (id, m) items -> labelled m) ->
  loadMarkers env file markerSet world = ([], Ret (filter (managed world) items)) /\
  (forall id m, In (id, m) (filter (managed world) items) <->
     In (id, m) items /\
     py_getitem m "world" = Ret (YStr world) /\
     py_getitem m "label" = Ret (YStr id)) /\
  (forall maps id a,
     In id (keys items) -> ~ In id (keys (filter (managed world) items)) ->
     In a (fst (reconcile int_of_str maps (filter (managed world) items))) ->
     target a = id ->
     exists x z, a = Add id x MARKER_Y z /\ In (id, (x, z)) maps).
Proof.
  intros Hload Hitems ND Hlab. split; [|split].
  - rewrite (loadMarkers_with_sets _ _ _ _ _ Hload (set_items_has_sets _ _ _ Hitems)).
    rewrite Hitems. simpl. now rewrite loadMarkers_loop_filter.
  - intros id m. rewrite filter_In. unfold managed. simpl. split.
    + intros [Hin Hm]. split; [exact Hin|].
      destruct (py_getitem m "world") as [w|]; [|discriminate].
      destruct (py_getitem m "label") as [l|]; [|discriminate].
      apply andb_true_iff in Hm as [Hw Hl].
      apply py_eq_str_true in Hw, Hl. now subst.
    + intros (Hin & -> & ->). simpl. now rewrite !String.eqb_refl.
  - intros maps id a _ Hout Ha Ht.
    apply reconcile_actions in Ha as [(k & -> & Hk)|(k & x & z & -> & Hk)];
      simpl in Ht; subst k.
    + contradiction.
    + eauto.
Qed.

Lemma loadMarkers_filter_witness :
  loadMarkers
    (env_markers (Document (markers_doc "markers"
       [("5", marker "world" "5" 100 64 (-200)); ("spawn", marker "world" "Spawn" 0 70 0);
        ("7", marker "world_nether" "7" 8 64 8)])))
    "markers.yml" "markers" "world"
  = ([], Ret [("5", marker "world" "5" 100 64 (-200))]).
Proof.
  apply (loadMarkers_filter no_int_of_str
    (env_markers (Document (markers_doc "markers"
       [("5", marker "world" "5" 100 64 (-200)); ("spawn", marker "world" "Spawn" 0 70 0);
        ("7", marker "world_nether" "7" 8 64 8)])))
    "markers.yml" "markers" "world" _
    [("5", marker "world" "5" 100 64 (-200)); ("spawn", marker "world" "Spawn" 0 70 0);
     ("7", marker "world_nether" "7" 8 64 8)] eq_refl eq_refl).
  - repeat constructor; simpl; intuition discriminate.
  - intros id m [[= <- <-]|[[= <- <-]|[[= <- <-]|[]]]];
      eexists; eexists; split; reflexivity.
Defined.

(** C5, as the specification words it, fails. The marker "5" of another world is
    left out by [loadMarkers], and the run still sends an add for the id
    "5", because the map 5 of the target world has no marker in the
    table. *)
Lemma excluded_marker_id_is_added :
  set_items (markers_doc "markers" [("5", marker "world_nether" "5" 100 64 (-200))])
    "markers"
  = Ret [("5", marker "world_nether" "5" 100 64 (-200))] /\
  loadMarkers
    (env_server [("data/map_5.dat", overworld 100 (-200))]
       (markers_doc "markers" [("5", marker "world_nether" "5" 100 64 (-200))]))
    "markers.yml" "markers" "world"
  = ([], Ret []) /\
  reconcile no_int_of_str [("5", (100, -200))] []
  = ([Add "5" 100 64 (-200)], Ret tt) /\
  target (Add "5" 100 64 (-200)) = "5" /\
  main no_int_of_str
    (env_server [("data/map_5.dat", overworld 100 (-200))]
       (markers_doc "markers" [("5", marker "world_nether" "5" 100 64 (-200))]))
    "mapmarkers.py" ["pve"; "world"; "data"; "markers.yml"; "markers"]
  = ([System "mark2 send -n pve save-all"; Sleep 5;
      System "mark2 send -n pve dmarker add id:5 5 icon:pin set:markers x:100 y:64 z:-200 world:world"],
     Ret tt).
Proof. repeat split. Qed.

(* ===================================================================== *)
(** ** Numbers as text *)
(* ===================================================================== *)

Lemma str_inj n m : str n = str m -> n = m.
Proof.
  unfold str. intros H. apply DecimalZ.to_int_inj.
  assert (E : Some (Z.to_int n) = Some (Z.to_int m)).
  { rewrite <- (NilEmpty.isi (Z.to_int n)), <- (NilEmpty.isi (Z.to_int m)).
    now rewrite H. }
  now injection E.
Qed.

Lemma string_of_uint_free d : free_of ":" (NilEmpty.string_of_uint d).
Proof. induction d; simpl; (split; [discriminate | assumption]) || exact I. Qed.

Lemma str_free n : free_of ":" (str n).
Proof.
  unfold str. destruct (Z.to_int n) as [d|d]; simpl.
  - apply string_of_uint_free.
  - split; [discriminate | apply string_of_uint_free].
Qed.

Lemma append_colon_inj s1 s2 t1 t2 :
  free_of ":" s1 -> free_of ":" s2 ->
  s1 +++ ":" +++ t1 = s2 +++ ":" +++ t2 -> s1 = s2 /\ t1 = t2.
Proof.
  revert s2. induction s1 as [|c s1 IH]; intros [|c2 s2] F1 F2; simpl in *.
  - intros [= ->]. auto.
  - intros [= <- _]. now destruct F2.
  - intros [= -> _]. now destruct F1.
  - intros [= -> H]. destruct F1 as [_ F1], F2 as [_ F2].
    destruct (IH s2 F1 F2 H) as [-> ->]. auto.
Qed.

Lemma coordsKey_inj x z x' z' : coordsKey x z = coordsKey x' z' -> x = x' /\ z = z'.
Proof.
  unfold coordsKey. intros H.
  apply append_colon_inj in H as [Hx Hz]; try apply str_free.
  split; now apply str_inj.
Qed.

(* ===================================================================== *)
(** ** The loop of loadMaps *)
(* ===================================================================== *)

Lemma loadMaps_file_record env world st file :
  loadMaps_file env world st file =
  (o <-? map_record env world file ;;
   Ret (match o with Some r => add_record st r | None => st end)).
Proof.
  unfold loadMaps_file, map_record, add_record. destruct st as [h a].
  destruct (nbt_load env file) as [nbt|e]; simpl; [|reflexivity].
  destruct (String.eqb _ _); [|reflexivity].
  destruct (re_match file); [|reflexivity].
  destruct (scale nbt =? 0); reflexivity.
Qed.

Lemma loadMaps_files_records env world files : forall recs st,
  map_records env world files = Ret recs ->
  loadMaps_files env world files st = Ret (fold_left add_record recs st).
Proof.
  induction files as [|file files IH]; intros recs st; simpl.
  - intros [= <-]. reflexivity.
  - rewrite loadMaps_file_record.
    destruct (map_record env world file) as [o|e]; simpl; [|discriminate].
    destruct (map_records env world files) as [recs'|e]; simpl; [|discriminate].
    intros [= <-]. destruct o as [r|]; simpl; now apply IH.
Qed.

Lemma maps_inv_init : maps_inv [] ([], []).
Proof.
  constructor; simpl; try discriminate; try contradiction. constructor.
Qed.

Lemma dict_mem_set {K V} (dec : forall a b : K, {a = b} + {a <> b})
    (k k' : K) (v : V) (d : dict K V) :
  dict_mem dec k' d = true -> dict_mem dec k' (dict_set dec k v d) = true.
Proof.
  unfold dict_mem. destruct (dec k k') as [->|Hne].
  - now rewrite dict_get_set_eq.
  - now rewrite dict_get_set_ne.
Qed.

Lemma maps_inv_step recs st r :
  maps_inv recs st -> maps_inv (recs ++ [r]) (add_record st r).
Proof.
  intros [Hall Hmem Hhigh Hkey Hnd].
  destruct st as [h a], r as [j [x z]]. simpl in *.
  assert (Hnew : forall j', In (j', (x, z)) recs ->
            exists i0, dict_get string_dec (coordsKey x z) h = Some i0 /\ j' <= i0).
  { intros j' Hj'. pose proof (Hkey _ _ _ Hj') as Hk. unfold dict_mem in Hk.
    destruct (dict_get string_dec (coordsKey x z) h) as [i0|] eqn:E; [|discriminate].
    exists i0. split; [reflexivity|].
    destruct (Hhigh _ _ E) as (x0 & z0 & Hc & _ & Hmax).
    apply coordsKey_inj in Hc as [<- <-]. now apply Hmax. }
  (* the dictionary of the highest numbers after a write of [j] *)
  assert (Hset :
    (forall j', In (j', (x, z)) recs -> j' <= j) ->
    forall k i, dict_get string_dec k (dict_set string_dec (coordsKey x z) j h) = Some i ->
    exists x' z', k = coordsKey x' z' /\ In (i, (x', z')) (recs ++ [(j, (x, z))]) /\
                  forall j', In (j', (x', z')) (recs ++ [(j, (x, z))]) -> j' <= i).
  { intros Hle k i. destruct (string_dec (coordsKey x z) k) as [<-|Hne].
    - rewrite dict_get_set_eq. intros [= <-]. exists x, z.
      split; [reflexivity|]. split; [apply in_or_app; right; now left|].
      intros j' Hj'. apply in_app_or in Hj' as [Hj'|[[= ->]|[]]]; [auto|lia].
    - rewrite dict_get_set_ne by exact Hne. intros Hk.
      destruct (Hhigh _ _ Hk) as (x' & z' & -> & Hin & Hmax).
      exists x', z'. split; [reflexivity|]. split; [apply in_or_app; now left|].
      intros j' Hj'. apply in_app_or in Hj' as [Hj'|[[= -> -> ->]|[]]]; [auto|].
      now contradiction Hne. }
  constructor; simpl.
  - intros i c. destruct (Z.eq_dec j i) as [<-|Hne].
    + rewrite dict_get_set_eq. intros [= <-]. apply in_or_app. right. now left.
    + rewrite dict_get_set_ne by exact Hne. intros H. apply in_or_app. left. auto.
  - intros i c Hin. apply in_app_or in Hin as [Hin|[[= -> ->]|[]]].
    + apply dict_mem_set. eauto.
    + unfold dict_mem. now rewrite dict_get_set_eq.
  - destruct (dict_get string_dec (coordsKey x z) h) as [i0|] eqn:E.
    + destruct (Z.ltb_spec i0 j) as [Hlt|Hge].
      * apply Hset. intros j' Hj'. destruct (Hnew j' Hj') as (i1 & [= <-] & Hle). lia.
      * intros k i Hk. destruct (Hhigh _ _ Hk) as (x' & z' & -> & Hin & Hmax).
        exists x', z'. split; [reflexivity|]. split; [apply in_or_app; now left|].
        intros j' Hj'. apply in_app_or in Hj' as [Hj'|[[= -> -> ->]|[]]]; [auto|].
        rewrite E in Hk. injection Hk as <-. exact Hge.
    + apply Hset. intros j' Hj'. destruct (Hnew j' Hj') as (i1 & [=] & _).
  - intros i x' z' Hin.
    assert (Hold : dict_mem string_dec (coordsKey x' z') h = true ->
              dict_mem string_dec (coordsKey x' z')
                match dict_get string_dec (coordsKey x z) h with
                | Some highest =>
                    if highest <? j then dict_set string_dec (coordsKey x z) j h else h
                | None => dict_set string_dec (coordsKey x z) j h
                end = true).
    { intros H. destruct (dict_get string_dec (coordsKey x z) h) as [i0|];
        [destruct (i0 <? j)|]; auto using dict_mem_set. }
    apply in_app_or in Hin as [Hin|[[= <- <- <-]|[]]]; [eauto|].
    unfold dict_mem.
    destruct (dict_get string_dec (coordsKey x z) h) as [i0|] eqn:E.
    + destruct (i0 <? j); [now rewrite dict_get_set_eq | now rewrite E].
    + now rewrite dict_get_set_eq.
  - destruct (dict_get string_dec (coordsKey x z) h) as [i0|];
      [destruct (i0 <? j)|]; auto using NoDup_keys_set.
Qed.

Lemma maps_inv_fold recs : maps_inv recs (fold_left add_record recs ([], [])).
Proof.
  induction recs as [|r recs IH] using rev_ind.
  - apply maps_inv_init.
  - rewrite fold_left_app. simpl. now apply maps_inv_step.
Qed.

Lemma loadMaps_result_entries allMaps items : forall acc,
  (forall k i, In (k, i) items -> dict_mem Z.eq_dec i allMaps = true) ->
  NoDup (keys acc ++ map (fun item => str (snd item)) items) ->
  loadMaps_result items allMaps acc = Ret (acc ++ map (table_entry allMaps) items).
Proof.
  induction items as [|[k i] items IH]; intros acc Hmem ND; simpl.
  - now rewrite app_nil_r.
  - pose proof (Hmem k i (or_introl eq_refl)) as Hi. unfold dict_mem in Hi.
    unfold getitem, table_entry at 1. simpl.
    destruct (dict_get Z.eq_dec i allMaps) as [c|]; [simpl|discriminate].
    assert (Hfresh : dict_mem string_dec (str i) acc = false).
    { apply dict_mem_false. apply NoDup_remove_2 in ND.
      intros Hin. apply ND. apply in_or_app. now left. }
    rewrite (dict_set_fresh string_dec _ c _ Hfresh). rewrite IH.
    + now rewrite <- app_assoc.
    + intros; eapply Hmem; right; eauto.
    + unfold keys in *. rewrite map_app. simpl. rewrite <- app_assoc. exact ND.
Qed.

Lemma loadMaps_result_total allMaps items : forall acc,
  (forall k i, In (k, i) items -> dict_mem Z.eq_dec i allMaps = true) ->
  exists table, loadMaps_result items allMaps acc = Ret table.
Proof.
  induction items as [|[k i] items IH]; intros acc Hmem; simpl; [eauto|].
  pose proof (Hmem k i (or_introl eq_refl)) as Hi. unfold dict_mem in Hi.
  unfold getitem. destruct (dict_get Z.eq_dec i allMaps) as [c|]; [simpl|discriminate].
  apply IH. intros; eapply Hmem; right; eauto.
Qed.

Lemma maps_inv_values recs st k i :
  maps_inv recs st -> In (k, i) (fst st) -> dict_mem Z.eq_dec i (snd st) = true.
Proof.
  intros Hinv Hin.
  apply (In_dict_get string_dec _ _ _ (inv_nodup _ _ Hinv)) in Hin.
  destruct (inv_high _ _ Hinv _ _ Hin) as (x & z & _ & Hrec & _).
  exact (inv_all_mem _ _ Hinv _ _ Hrec).
Qed.

(** The reduction returns a table whenever the records can be read. *)
Lemma reduce_files_total env world files recs :
  map_records env world files = Ret recs ->
  exists table, reduce_files env world files = Ret table.
Proof.
  intros Hrecs. unfold reduce_files.
  rewrite (loadMaps_files_records _ _ _ _ _ Hrecs). simpl.
  apply loadMaps_result_total. intros k i.
  apply (maps_inv_values recs _ k i (maps_inv_fold recs)).
Qed.

(* ===================================================================== *)
(** ** The table of maps *)
(* ===================================================================== *)

Lemma map_record_Some env world file i c :
  map_record env world file = Ret (Some (i, c)) <->
  exists nbt group1,
    nbt_load env file = Ret nbt /\
    dimension nbt = "minecraft:" +++ world /\
    scale nbt = 0 /\
    re_match file = Some group1 /\
    i = int_of_digits 0 group1 /\
    c = (xCenter nbt, zCenter nbt).
Proof.
  unfold map_record. split.
  - destruct (nbt_load env file) as [nbt|e]; cbn [rbind]; [|discriminate].
    destruct (String.eqb (dimension nbt) ("minecraft:" +++ world)) eqn:Hd;
      [|discriminate].
    destruct (re_match file) as [g|]; [|discriminate].
    destruct (scale nbt =? 0) eqn:Hs; [|discriminate].
    intros [= <- <-]. apply String.eqb_eq in Hd. apply Z.eqb_eq in Hs.
    exists nbt, g. auto 7.
  - intros (nbt & g & -> & Hd & Hs & -> & -> & ->). cbn [rbind].
    rewrite Hd, String.eqb_refl, Hs. reflexivity.
Qed.

Lemma map_records_In env world files : forall recs,
  map_records env world files = Ret recs ->
  forall r, In r recs <->
            exists file, In file files /\ map_record env world file = Ret (Some r).
Proof.
  induction files as [|file files IH]; intros recs; simpl.
  - intros [= <-] r. split; [contradiction | intros (f & [] & _)].
  - destruct (map_record env world file) as [o|e] eqn:Ho; simpl; [|discriminate].
    destruct (map_records env world files) as [recs'|e]; simpl; [|discriminate].
    intros [= <-] r. specialize (IH recs' eq_refl r). split.
    + destruct o as [r0|].
      * intros [<-|Hin]; [exists file; auto|].
        apply IH in Hin as (f & Hf & Hr). exists f. auto.
      * intros Hin. apply IH in Hin as (f & Hf & Hr). exists f. auto.
    + intros (f & [<-|Hf] & Hr).
      * rewrite Ho in Hr. injection Hr as ->. now left.
      * assert (Hin : In r recs') by (apply IH; eauto).
        destruct o; [now right | exact Hin].
Qed.

Lemma map_records_ok env world files :
  (forall file, In file files -> exists o, map_record env world file = Ret o) ->
  exists recs, map_records env world files = Ret recs.
Proof.
  induction files as [|file files IH]; intros H; simpl; [eauto|].
  destruct (H file (or_introl eq_refl)) as [o ->]. simpl.
  destruct IH as [recs ->]; [intros; apply H; now right|]. simpl. eauto.
Qed.

Lemma map_records_each env world files : forall recs,
  map_records env world files = Ret recs ->
  forall file, In file files -> exists o, map_record env world file = Ret o.
Proof.
  induction files as [|file files IH]; intros recs; simpl; [contradiction|].
  destruct (map_record env world file) as [o|e] eqn:Ho; simpl; [|discriminate].
  destruct (map_records env world files) as [recs'|e]; simpl; [|discriminate].
  intros _ f [<-|Hf]; [eauto|]. now apply (IH recs').
Qed.

(** The table the reduction returns, from the records it was given. *)
Lemma reduce_files_spec env world files recs :
  map_records env world files = Ret recs ->
  ids_identify recs ->
  exists table,
    reduce_files env world files = Ret table /\
    NoDup (keys table) /\
    NoDup (map snd table) /\
    (forall c, In c (map snd table) <-> exists i, In (i, c) recs) /\
    (forall k c, In (k, c) table <-> exists i, k = str i /\ highest_at recs c i).
Proof.
  intros Hrecs Hid. unfold reduce_files, highest_at.
  rewrite (loadMaps_files_records _ _ _ _ _ Hrecs). simpl.
  pose proof (maps_inv_fold recs) as Hinv.
  destruct (fold_left add_record recs ([], [])) as [h a]. simpl.
  destruct Hinv as [Hall Hmem Hhigh Hkey Hnd]. simpl in *.
  (* an item of the dictionary of the highest numbers *)
  assert (Hitem : forall k i, In (k, i) h ->
            exists x z, k = coordsKey x z /\ In (i, (x, z)) recs /\
                        (forall j, In (j, (x, z)) recs -> j <= i) /\
                        table_entry a (k, i) = (str i, (x, z))).
  { intros k i Hin. apply (In_dict_get string_dec _ _ _ Hnd) in Hin.
    destruct (Hhigh _ _ Hin) as (x & z & -> & Hrec & Hmax).
    exists x, z. repeat split; auto.
    pose proof (Hmem _ _ Hrec) as Hi. unfold dict_mem in Hi. unfold table_entry. simpl.
    destruct (dict_get Z.eq_dec i a) as [c|] eqn:Ha; [|discriminate].
    now rewrite (Hid _ _ _ (Hall _ _ Ha) Hrec). }
  assert (NDh : NoDup h) by (apply NoDup_map_inv in Hnd; exact Hnd).
  assert (NDstr : NoDup (map (fun item : string * Z => str (snd item)) h)).
  { apply NoDup_map_NoDup_ForallPairs; [|exact NDh].
    intros [k1 i1] [k2 i2] H1 H2 E. simpl in E. apply str_inj in E. subst i2.
    destruct (Hitem _ _ H1) as (x1 & z1 & -> & Hr1 & _).
    destruct (Hitem _ _ H2) as (x2 & z2 & -> & Hr2 & _).
    pose proof (Hid _ _ _ Hr1 Hr2) as E. now injection E as -> ->. }
  rewrite loadMaps_result_entries; [|intros k i Hin|exact NDstr].
  2:{ destruct (Hitem _ _ Hin) as (x & z & _ & Hrec & _). eauto. }
  simpl. eexists. split; [reflexivity|]. repeat split.
  - unfold keys. rewrite map_map. exact NDstr.
  - rewrite map_map. apply NoDup_map_NoDup_ForallPairs; [|exact NDh].
    intros [k1 i1] [k2 i2] H1 H2 E.
    destruct (Hitem _ _ H1) as (x1 & z1 & -> & _ & _ & E1).
    destruct (Hitem _ _ H2) as (x2 & z2 & -> & _ & _ & E2).
    rewrite E1, E2 in E. simpl in E. injection E as <- <-.
    f_equal.
    apply (In_dict_get string_dec _ _ _ Hnd) in H1, H2. congruence.
  - rewrite map_map. intros Hin. apply in_map_iff in Hin as ([k i] & E & Hin).
    destruct (Hitem _ _ Hin) as (x & z & _ & Hrec & _ & E').
    rewrite E' in E. simpl in E. subst c. eauto.
  - intros [i Hrec]. destruct c as [x z].
    pose proof (Hkey _ _ _ Hrec) as Hk. unfold dict_mem in Hk.
    destruct (dict_get string_dec (coordsKey x z) h) as [i'|] eqn:E; [|discriminate].
    apply dict_get_In in E.
    destruct (Hitem _ _ E) as (x' & z' & Hc & _ & _ & E').
    apply coordsKey_inj in Hc as [<- <-].
    rewrite map_map. apply in_map_iff. exists (coordsKey x z, i').
    rewrite E'. auto.
  - intros Hin. apply in_map_iff in Hin as ([k' i] & E & Hin).
    destruct (Hitem _ _ Hin) as (x & z & _ & Hrec & Hmax & E').
    rewrite E' in E. injection E as <- <-. eauto.
  - intros (i & -> & Hrec & Hmax). destruct c as [x z].
    pose proof (Hkey _ _ _ Hrec) as Hk. unfold dict_mem in Hk.
    destruct (dict_get string_dec (coordsKey x z) h) as [i'|] eqn:E; [|discriminate].
    apply dict_get_In in E.
    destruct (Hitem _ _ E) as (x' & z' & Hc & Hrec' & Hmax' & E').
    apply coordsKey_inj in Hc as [<- <-].
    assert (i = i') by (apply Z.le_antisymm; auto). subst i'.
    apply in_map_iff. exists (coordsKey x z, i). auto.
Qed.

Lemma In_insert_sorted s t l : In t (insert_sorted s l) <-> t = s \/ In t l.
Proof.
  induction l as [|u l IH]; simpl; [intuition|].
  destruct (String.leb s u); simpl; [intuition|]. rewrite IH. intuition.
Qed.

Lemma In_sorted t l : In t (sorted l) <-> In t l.
Proof.
  induction l as [|s l IH]; simpl; [tauto|].
  rewrite In_insert_sorted, IH. intuition.
Qed.

(** C2. When no two map files share a number, the table [loadMaps]
    returns has exactly one entry for each centre [(x, z)] found among the
    files of the world at scale 0: its value is that centre and its key
    is the text of the highest map number among those files with that
    centre. The records are those of the files of the dimension
    ['minecraft:' + world] whose scale is 0, and of no other file. *)
Theorem loadMaps_correct env mapsDir world recs :
  map_records env world (sorted (glob env (mapsDir +++ "/map_*.dat"))) = Ret recs ->
  ids_identify recs ->
  exists table,
    loadMaps env mapsDir world = Ret table /\
    (forall i c, In (i, c) recs <->
       exists file nbt group1,
         In file (glob env (mapsDir +++ "/map_*.dat")) /\
         nbt_load env file = Ret nbt /\
         dimension nbt = "minecraft:" +++ world /\
         scale nbt = 0 /\
         re_match file = Some group1 /\
         i = int_of_digits 0 group1 /\
         c = (xCenter nbt, zCenter nbt)) /\
    NoDup (keys table) /\
    NoDup (map snd table) /\
    (forall c, In c (map snd table) <-> exists i, In (i, c) recs) /\
    (forall k c, In (k, c) table <-> exists i, k = str i /\ highest_at recs c i).
Proof.
  intros Hrecs Hid. unfold loadMaps.
  destruct (reduce_files_spec _ _ _ _ Hrecs Hid) as (table & Hrun & H).
  exists table. split; [exact Hrun|]. split; [|exact H].
  intros i c. rewrite (map_records_In _ _ _ _ Hrecs). split.
  - intros (file & Hin & Hr). apply (proj1 (In_sorted _ _)) in Hin.
    apply map_record_Some in Hr as (nbt & g & Hr). exists file, nbt, g.
    split; assumption.
  - intros (file & nbt & g & Hin & Hr). exists file.
    split; [now apply (proj2 (In_sorted _ _))|].
    apply map_record_Some. eauto.
Qed.

(** C6. Two enumerations of the same files are reduced to the same
    entries: the table is the same up to the order of its entries. *)
Theorem reduction_order_independent env world files files' recs :
  Permutation files files' ->
  map_records env world files = Ret recs ->
  ids_identify recs ->
  exists table table',
    reduce_files env world files = Ret table /\
    reduce_files env world files' = Ret table' /\
    (forall k c, In (k, c) table <-> In (k, c) table') /\
    (forall k, dict_get string_dec k table = dict_get string_dec k table') /\
    Permutation table table'.
Proof.
  intros Hperm Hrecs Hid.
  destruct (map_records_ok env world files') as [recs' Hrecs'].
  { intros file Hin. apply (map_records_each _ _ _ _ Hrecs).
    now apply (Permutation_in _ (Permutation_sym Hperm)). }
  assert (Hsame : forall r, In r recs <-> In r recs').
  { intros r. rewrite (map_records_In _ _ _ _ Hrecs), (map_records_In _ _ _ _ Hrecs').
    split; intros (f & Hf & Hr); exists f; split; auto.
    - now apply (Permutation_in _ Hperm).
    - now apply (Permutation_in _ (Permutation_sym Hperm)). }
  assert (Hid' : ids_identify recs').
  { intros i c c' H1 H2. apply Hsame in H1, H2. eapply Hid; eauto. }
  destruct (reduce_files_spec _ _ _ _ Hrecs Hid) as (table & Hrun & ND & _ & _ & Ht).
  destruct (reduce_files_spec _ _ _ _ Hrecs' Hid') as (table' & Hrun' & ND' & _ & _ & Ht').
  exists table, table'. split; [exact Hrun|]. split; [exact Hrun'|].
  assert (Heq : forall k c, In (k, c) table <-> In (k, c) table').
  { intros k c. rewrite Ht, Ht'. unfold highest_at.
    split; intros (i & -> & Hin & Hmax); exists i; split; auto; split.
    - now apply Hsame.
    - intros j Hj. apply Hmax. now apply Hsame.
    - now apply Hsame.
    - intros j Hj. apply Hmax. now apply Hsame. }
  split; [exact Heq|]. split.
  - intros k. destruct (dict_get string_dec k table) as [c|] eqn:E.
    + apply dict_get_In, Heq in E. symmetry. now apply In_dict_get.
    + destruct (dict_get string_dec k table') as [c'|] eqn:E'; [|reflexivity].
      apply dict_get_In, Heq in E'. apply (In_dict_get string_dec _ _ _ ND) in E'.
      congruence.
  - apply NoDup_Permutation.
    + now apply NoDup_map_inv in ND.
    + now apply NoDup_map_inv in ND'.
    + intros [k c]. apply Heq.
Qed.

Lemma sample_ids_identify :
  ids_identify [(12, (0, 0)); (5, (100, -200)); (7, (0, 0))].
Proof.
  intros i c c' H1 H2. simpl in H1, H2.
  destruct H1 as [H1|[H1|[H1|[]]]], H2 as [H2|[H2|[H2|[]]]]; congruence.
Qed.

Lemma loadMaps_correct_witness :
  exists table,
    loadMaps (env_maps sample_maps) "data" "world" = Ret table /\
    table = [("12", (0, 0)); ("5", (100, -200))].
Proof.
  destruct (loadMaps_correct (env_maps sample_maps) "data" "world"
              [(12, (0, 0)); (5, (100, -200)); (7, (0, 0))] eq_refl sample_ids_identify)
    as (table & Hrun & _).
  exists table. split; [exact Hrun|].
  vm_compute in Hrun. now injection Hrun as <-.
Defined.

Lemma reduction_order_independent_witness :
  exists table table',
    reduce_files (env_maps sample_maps) "world"
      ["data/map_7.dat"; "data/map_12.dat"; "data/map_5.dat"] = Ret table /\
    reduce_files (env_maps sample_maps) "world"
      ["data/map_5.dat"; "data/map_12.dat"; "data/map_7.dat"] = Ret table' /\
    Permutation table table'.
Proof.
  destruct (reduction_order_independent (env_maps sample_maps) "world"
              ["data/map_7.dat"; "data/map_12.dat"; "data/map_5.dat"]
              ["data/map_5.dat"; "data/map_12.dat"; "data/map_7.dat"]
              [(7, (0, 0)); (12, (0, 0)); (5, (100, -200))])
    as (table & table' & H1 & H2 & _ & _ & HP).
  - apply perm_trans with ["data/map_12.dat"; "data/map_7.dat"; "data/map_5.dat"].
    + apply perm_swap.
    + apply perm_trans with ["data/map_12.dat"; "data/map_5.dat"; "data/map_7.dat"].
      * apply perm_skip, perm_swap.
      * apply perm_swap.
  - reflexivity.
  - intros i c c' Ha Hb. simpl in Ha, Hb.
    destruct Ha as [Ha|[Ha|[Ha|[]]]], Hb as [Hb|[Hb|[Hb|[]]]]; congruence.
  - exists table, table'. auto.
Defined.

(* ===================================================================== *)
(** ** The names of the map files *)
(* ===================================================================== *)

Lemma is_digit_not c d : is_digit c = true -> is_digit d = false -> c <> d.
Proof. intros Hc Hd ->. congruence. Qed.

Lemma re_match_no_slash s : free_of "/" s -> re_match s = None.
Proof.
  induction s as [|c s IH]; simpl; [reflexivity|].
  intros [Hc Hs]. rewrite (IH Hs).
  destruct (Ascii.eqb c "010"); destruct (Ascii.eqb_spec c "/"); congruence.
Qed.

Lemma re_digits_dat_exact digits :
  digits <> "" -> all_digits digits = true ->
  re_digits_dat (digits +++ ".dat") = Some digits.
Proof.
  induction digits as [|c ds IH]; [congruence|]. intros _. simpl.
  intros H. apply andb_true_iff in H as [Hc Hds]. rewrite Hc.
  destruct ds as [|c' ds].
  - reflexivity.
  - rewrite IH; [reflexivity|discriminate|exact Hds].
Qed.

Lemma all_digits_free digits c :
  is_digit c = false -> all_digits digits = true -> free_of c digits.
Proof.
  intros Hc. induction digits as [|d ds IH]; simpl; [trivial|].
  intros H. apply andb_true_iff in H as [Hd Hds]. split; [|auto].
  now apply is_digit_not.
Qed.

Lemma free_of_append c s t : free_of c s -> free_of c t -> free_of c (s +++ t).
Proof. induction s; simpl; intuition. Qed.

(** The pattern on a well-formed path: the group is the number. *)
Lemma re_match_exact folder digits :
  free_of "010" folder -> digits <> "" -> all_digits digits = true ->
  re_match (folder +++ "/map_" +++ digits +++ ".dat") = Some digits.
Proof.
  intros Hf Hne Hd. induction folder as [|c folder IH].
  - change ("" +++ "/map_" +++ digits +++ ".dat")
      with (String "/" ("map_" +++ digits +++ ".dat")).
    cbn [re_match]. rewrite re_match_no_slash.
    + simpl. now apply re_digits_dat_exact.
    + simpl. repeat (split; [discriminate|]).
      apply free_of_append; [now apply all_digits_free|].
      simpl. repeat (split; [discriminate|]). exact I.
  - destruct Hf as [Hc Hf].
    change (String c folder +++ "/map_" +++ digits +++ ".dat")
      with (String c (folder +++ "/map_" +++ digits +++ ".dat")).
    cbn [re_match]. rewrite (IH Hf).
    destruct (Ascii.eqb_spec c "010") as [->|_]; [congruence|reflexivity].
Qed.

Lemma loadMaps_files_raise env world files e : forall st,
  map_records env world files = Raise e ->
  loadMaps_files env world files st = Raise e.
Proof.
  induction files as [|file files IH]; intros st; simpl; [discriminate|].
  rewrite loadMaps_file_record.
  destruct (map_record env world file) as [o|e']; simpl; [|now intros [= ->]].
  destruct (map_records env world files) as [recs|e'] eqn:Hrest; simpl; [discriminate|].
  intros [= ->]. now apply IH.
Qed.

(** A file of the dimension whose name the pattern does not match stops
    the loop, when the files before it can be decoded. *)
Lemma map_records_no_match env world files file nbt :
  (forall f, In f files -> exists d, nbt_load env f = Ret d) ->
  In file files ->
  nbt_load env file = Ret nbt ->
  dimension nbt = "minecraft:" +++ world ->
  re_match file = None ->
  map_records env world files = Raise AttributeError.
Proof.
  intros Hdec Hin Hnbt Hdim Hre.
  induction files as [|f files IH]; [contradiction|]. simpl.
  assert (Hbad : map_record env world file = Raise AttributeError).
  { unfold map_record. rewrite Hnbt. cbn [rbind].
    now rewrite Hdim, String.eqb_refl, Hre. }
  destruct Hin as [->|Hin]; [now rewrite Hbad|].
  rewrite IH; [|intros; apply Hdec; now right|exact Hin].
  destruct (Hdec f (or_introl eq_refl)) as [d Hd].
  unfold map_record. rewrite Hd. cbn [rbind].
  destruct (String.eqb _ _); [|reflexivity].
  destruct (re_match f); [|reflexivity].
  destruct (scale d =? 0); reflexivity.
Qed.

(** C10. [loadMaps] returns a table when every path the pattern
    [map_*.dat] yields can be decoded and has the exact form
    [map_<digits>.dat]. It does not return without a condition on the
    names: when the files can be decoded and the pattern does not match
    the name of one in the dimension of the world, [loadMaps] raises
    [AttributeError]; so it does for the file [map_x.dat], for which
    [re.match] returns [None]. *)
Theorem loadMaps_needs_exact_names :
  (forall env mapsDir world,
     (forall file, In file (glob env (mapsDir +++ "/map_*.dat")) ->
        exact_name file /\ exists nbt, nbt_load env file = Ret nbt) ->
     exists table, loadMaps env mapsDir world = Ret table) /\
  (forall env mapsDir world file nbt,
     (forall f, In f (glob env (mapsDir +++ "/map_*.dat")) ->
        exists d, nbt_load env f = Ret d) ->
     In file (glob env (mapsDir +++ "/map_*.dat")) ->
     nbt_load env file = Ret nbt ->
     dimension nbt = "minecraft:" +++ world ->
     re_match file = None ->
     loadMaps env mapsDir world = Raise AttributeError) /\
  (glob (env_maps [("data/map_x.dat", overworld 0 0)]) ("data" +++ "/map_*.dat")
     = ["data/map_x.dat"] /\
   re_match "data/map_x.dat" = None /\
   loadMaps (env_maps [("data/map_x.dat", overworld 0 0)]) "data" "world"
     = Raise AttributeError).
Proof.
  split; [|split; [|repeat split]].
  - intros env mapsDir world Hfiles. unfold loadMaps.
    destruct (map_records_ok env world (sorted (glob env (mapsDir +++ "/map_*.dat"))))
      as [recs Hrecs].
    + intros file Hin. apply (proj1 (In_sorted _ _)) in Hin.
      destruct (Hfiles file Hin) as [(folder & digits & -> & Hf & Hne & Hd) [nbt Hnbt]].
      unfold map_record. rewrite Hnbt. cbn [rbind].
      rewrite (re_match_exact _ _ Hf Hne Hd).
      destruct (String.eqb _ _); [destruct (scale nbt =? 0)|]; eauto.
    + exact (reduce_files_total _ _ _ _ Hrecs).
  - intros env mapsDir world file nbt Hdec Hin Hnbt Hdim Hre.
    unfold loadMaps, reduce_files.
    rewrite (loadMaps_files_raise env world _ AttributeError); [reflexivity|].
    apply (map_records_no_match env world _ file nbt); auto.
    + intros f Hf. apply Hdec. now apply (proj1 (In_sorted _ _)).
    + now apply (proj2 (In_sorted _ _)).
Qed.

Lemma loadMaps_needs_exact_names_witness :
  exists table, loadMaps (env_maps sample_maps) "data" "world" = Ret table.
Proof.
  apply (proj1 loadMaps_needs_exact_names (env_maps sample_maps) "data" "world").
  intros file Hin. simpl in Hin.
  destruct Hin as [<-|[<-|[<-|[<-|[<-|[]]]]]];
    (split; [|eexists; reflexivity]).
  - exists "data", "7". repeat split; discriminate.
  - exists "data", "12". repeat split; discriminate.
  - exists "data", "3". repeat split; discriminate.
  - exists "data", "9". repeat split; discriminate.
  - exists "data", "5". repeat split; discriminate.
Defined.

(* ===================================================================== *)
(** ** The script as a whole *)
(* ===================================================================== *)

Lemma for_each_interp {A E} (interp : Action -> list E) (l : list A)
    (body : A -> run Action unit) (body' : A -> run E unit) :
  (forall x, body' x = (flat_map interp (fst (body x)), snd (body x))) ->
  for_each l body' = (flat_map interp (fst (for_each l body)), snd (for_each l body)).
Proof.
  intros H. induction l as [|x l IH]; [reflexivity|]. simpl.
  rewrite H. destruct (body x) as [t [[]|e]]; simpl; [|reflexivity].
  rewrite IH. destruct (for_each l body) as [t' r']. simpl.
  now rewrite flat_map_app.
Qed.

(** The loops over procedures that only emit: the calls of [reconcile],
    each replaced by what its procedure emits. *)
Lemma loops_interp {E} int_of_str (interp : Action -> list E) maps markers :
  loops int_of_str (fun id => (interp (Delete id), Ret tt))
    (fun id x y z => (interp (Add id x y z), Ret tt)) maps markers
  = (flat_map interp (fst (reconcile int_of_str maps markers)),
     snd (reconcile int_of_str maps markers)).
Proof.
  unfold reconcile, loops, delete_unused, update_markers.
  rewrite (for_each_interp interp (keys markers)
             (fun mapID => if negb (dict_mem string_dec mapID maps)
                           then emit (Delete mapID) else ret tt)).
  2:{ intros id. destruct (dict_mem string_dec id maps); simpl; [reflexivity|].
      now rewrite app_nil_r. }
  rewrite (for_each_interp interp maps
             (fun '(mapID, mapData) =>
                match dict_get string_dec mapID markers with
                | Some marker =>
                    d <- lift (differs int_of_str mapData marker) ;;
                    if (d : bool)
                    then emit (Delete mapID) ;;
                         emit (Add mapID (fst mapData) MARKER_Y (snd mapData))
                    else ret tt
                | None => emit (Add mapID (fst mapData) MARKER_Y (snd mapData))
                end)).
  2:{ intros [id d]. destruct (dict_get string_dec id markers) as [m|]; simpl.
      - destruct (differs int_of_str d m) as [[|]|e]; simpl; [|reflexivity|reflexivity].
        now rewrite !app_nil_r.
      - now rewrite app_nil_r. }
  destruct (for_each (keys markers) _) as [t1 [[]|e1]]; simpl; [|reflexivity].
  destruct (for_each maps _) as [t2 r2]. simpl. now rewrite flat_map_app.
Qed.

(** Once the arguments are accepted and both tables are loaded, the
    script saves the world, waits, and sends the commands of the actions
    of [reconcile], in their order. *)
Lemma main_reconciles int_of_str env argv0 server world mapsDir markersFileName
    markerSet maps markers :
  isfile env markersFileName = true ->
  isdir env mapsDir = true ->
  loadMaps env mapsDir world = Ret maps ->
  loadMarkers env markersFileName markerSet world = ([], Ret markers) ->
  main int_of_str env argv0 [server; world; mapsDir; markersFileName; markerSet]
  = (System ("mark2 send -n " +++ server +++ " save-all") :: Sleep 5
       :: flat_map (command server markerSet world)
            (fst (reconcile int_of_str maps markers)),
     snd (reconcile int_of_str maps markers)).
Proof.
  intros Hfile Hdir Hmaps Hmarkers. unfold main.
  cbn [List.length Nat.eqb negb]. rewrite bind_ret_l.
  rewrite Hfile, Hdir. cbn [negb]. rewrite !bind_ret_l.
  rewrite Hmaps, Hmarkers.
  pose proof (loops_interp int_of_str (command server markerSet world) maps markers) as H.
  change (fun id => (command server markerSet world (Delete id), Ret tt))
    with (deleteMarker server) in H.
  change (fun id x y z => (command server markerSet world (Add id x y z), Ret tt))
    with (fun id x y z => addMarker server id markerSet world x y z) in H.
  unfold serverCommand at 1. unfold emit, lift, bind at 1 2 3 4.
  rewrite H. reflexivity.
Qed.

(* ===================================================================== *)
(** ** The scenarios of the specification *)
(* ===================================================================== *)

Example scenario_new_map :
  reconcile no_int_of_str [("5", (100, -200))] []
  = ([Add "5" 100 64 (-200)], Ret tt).
Proof. reflexivity. Qed.

Example scenario_marker_in_place :
  reconcile no_int_of_str [("5", (100, -200))] [("5", marker "world" "5" 100 64 (-200))]
  = ([], Ret tt).
Proof. reflexivity. Qed.

Example scenario_marker_moved :
  reconcile no_int_of_str [("5", (100, -200))] [("5", marker "world" "5" 50 64 (-200))]
  = ([Delete "5"; Add "5" 100 64 (-200)], Ret tt).
Proof. reflexivity. Qed.

Example scenario_map_gone :
  reconcile no_int_of_str [] [("3", marker "world" "3" 1 64 1)]
  = ([Delete "3"], Ret tt).
Proof. reflexivity. Qed.

Example scenario_same_centre :
  loadMaps (env_maps [("data/map_7.dat", overworld 0 0); ("data/map_12.dat", overworld 0 0)])
    "data" "world"
  = Ret [("12", (0, 0))].
Proof. reflexivity. Qed.

(** dynmap stores coordinates as floats; [int] reads 100.5 (201 halves)
    as 100, so that a marker at x = 100.5 is in place for a map centred
    at x = 100. *)
Example scenario_float_coordinates :
  reconcile no_int_of_str [("5", (100, -200))]
    [("5", YMap [("world", YStr "world"); ("label", YStr "5");
                 ("x", YFloat (S754_finite false 201 (-1)));
                 ("y", YFloat (S754_finite false 64 0));
                 ("z", YFloat (S754_finite true 200 0))])]
  = ([], Ret tt).
Proof. reflexivity. Qed.

(* ===================================================================== *)
(** ** Map numbers and file names *)
(* ===================================================================== *)

Lemma int_of_digits_uint_acc d : forall acc,
  int_of_digits (Zpos acc) (NilEmpty.string_of_uint d) = Zpos (Pos.of_uint_acc d acc).
Proof.
  induction d; intros acc; cbn [NilEmpty.string_of_uint int_of_digits Pos.of_uint_acc];
    [reflexivity|..]; rewrite <- IHd; f_equal;
    match goal with
    | |- context [digit_value ?c] =>
        let v := eval vm_compute in (digit_value c) in change (digit_value c) with v
    end; lia.
Qed.

Lemma int_of_digits_uint d :
  int_of_digits 0 (NilEmpty.string_of_uint d) = Z.of_N (Pos.of_uint d).
Proof.
  induction d; cbn [NilEmpty.string_of_uint int_of_digits Pos.of_uint];
    [reflexivity | exact IHd | ..];
    apply (int_of_digits_uint_acc d).
Qed.

Lemma int_of_digits_str n : 0 <= n -> int_of_digits 0 (str n) = n.
Proof.
  intros Hn. destruct n as [|p|p]; [reflexivity| |lia].
  unfold str. simpl. rewrite int_of_digits_uint.
  now rewrite DecimalPos.Unsigned.of_to.
Qed.

Lemma all_digits_uint d : all_digits (NilEmpty.string_of_uint d) = true.
Proof. induction d; simpl; auto. Qed.

Lemma all_digits_str n : 0 <= n -> all_digits (str n) = true.
Proof.
  intros Hn. destruct n as [|p|p]; [reflexivity| |lia].
  unfold str. simpl. apply all_digits_uint.
Qed.

Lemma str_nonempty n : str n <> "".
Proof.
  unfold str. destruct n as [|p|p]; simpl; try discriminate.
  pose proof (DecimalPos.Unsigned.to_uint_nonnil p) as H.
  destruct (Pos.to_uint p); simpl; congruence.
Qed.

Lemma int_of_digits_nonneg s : forall acc,
  0 <= acc -> all_digits s = true -> 0 <= int_of_digits acc s.
Proof.
  induction s as [|c s IH]; intros acc Hacc; cbn [all_digits int_of_digits]; [auto|].
  intros H. apply andb_true_iff in H as [Hc Hs]. apply IH; [|exact Hs].
  unfold is_digit in Hc. apply andb_true_iff in Hc as [Hlo _].
  apply N.leb_le in Hlo. unfold digit_value. lia.
Qed.

Lemma prefix_append s t : prefix s t = true -> exists rest, t = s +++ rest.
Proof.
  revert t. induction s as [|c s IH]; intros t.
  - exists t. reflexivity.
  - destruct t as [|c' t]; simpl; [discriminate|].
    destruct (ascii_dec c c') as [->|]; [|discriminate].
    intros H. destruct (IH t H) as [rest ->]. exists rest. reflexivity.
Qed.

Lemma prefix_append_true s rest : prefix s (s +++ rest) = true.
Proof.
  induction s as [|c s IH]; simpl; [now destruct rest|].
  destruct (ascii_dec c c); [exact IH|congruence].
Qed.

Lemma re_digits_dat_group s g :
  re_digits_dat s = Some g ->
  g <> "" /\ all_digits g = true /\
  exists c after, s = g +++ String c ("dat" +++ after) /\ c <> "010"%char.
Proof.
  revert g. induction s as [|c s IH]; intros g; simpl; [discriminate|].
  destruct (is_digit c) eqn:Hc; [|discriminate].
  destruct (re_digits_dat s) as [g'|] eqn:Hs.
  - intros [= <-]. destruct (IH g' eq_refl) as (_ & Hd & c' & after & -> & Hnl).
    split; [discriminate|]. split; [simpl; now rewrite Hc|].
    exists c', after. split; [reflexivity|exact Hnl].
  - unfold re_any_dat. destruct s as [|c' rest]; [discriminate|].
    destruct (Ascii.eqb_spec c' "010") as [|Hnl]; simpl; [discriminate|].
    destruct (prefix "dat" rest) eqn:Hp; [|discriminate].
    intros [= <-]. apply prefix_append in Hp as [after ->].
    split; [discriminate|]. split; [simpl; now rewrite Hc|].
    exists c', after. split; [reflexivity|exact Hnl].
Qed.

(** X1. When [re.match] finds the pattern in a path, [match.group(1)] is
    a non-empty string of decimal digits, so that [int] of it cannot fail
    and the map number is not negative; the digits stand in the path
    after ["/map_"], before one character that is no newline and ["dat"],
    and what precedes holds no newline. *)
Theorem re_match_group file group1 :
  re_match file = Some group1 ->
  group1 <> "" /\ all_digits group1 = true /\ 0 <= int_of_digits 0 group1 /\
  exists before c after,
    file = before +++ "/map_" +++ group1 +++ String c ("dat" +++ after) /\
    c <> "010"%char /\ free_of "010" before.
Proof.
  revert group1. induction file as [|a s IH]; intros g; simpl; [discriminate|].
  destruct (Ascii.eqb_spec a "010") as [->|Ha].
  - simpl. discriminate.
  - destruct (re_match s) as [g'|] eqn:Hs.
    + intros [= <-].
      destruct (IH g' eq_refl) as (Hne & Hd & Hpos & before & c & after & -> & Hc & Hb).
      repeat split; auto.
      exists (String a before), c, after. simpl. auto.
    + destruct (Ascii.eqb_spec a "/") as [->|_]; [|discriminate].
      unfold re_map_dat.
      destruct s as [|c1 [|c2 [|c3 [|c4 rest]]]]; try discriminate.
      * destruct c1 as [[] [] [] [] [] [] [] []]; discriminate.
      * destruct c1 as [[] [] [] [] [] [] [] []]; try discriminate;
        destruct c2 as [[] [] [] [] [] [] [] []]; discriminate.
      * destruct c1 as [[] [] [] [] [] [] [] []]; try discriminate;
        destruct c2 as [[] [] [] [] [] [] [] []]; try discriminate;
        destruct c3 as [[] [] [] [] [] [] [] []]; discriminate.
      * destruct c1 as [[] [] [] [] [] [] [] []]; try discriminate;
        destruct c2 as [[] [] [] [] [] [] [] []]; try discriminate;
        destruct c3 as [[] [] [] [] [] [] [] []]; try discriminate;
        destruct c4 as [[] [] [] [] [] [] [] []]; try discriminate.
        intros Hg. apply re_digits_dat_group in Hg as (Hne & Hd & c & after & -> & Hc).
        repeat split; auto.
        -- now apply int_of_digits_nonneg.
        -- exists "", c, after. simpl. auto.
Qed.

Lemma re_match_group_witness :
  exists before c after,
    "data/map_12.dat" = before +++ "/map_" +++ "12" +++ String c ("dat" +++ after).
Proof.
  destruct (re_match_group "data/map_12.dat" "12" eq_refl)
    as (_ & _ & _ & before & c & after & H & _).
  exists before, c, after. exact H.
Defined.

Lemma re_digits_dat_then digits c after :
  digits <> "" -> all_digits digits = true ->
  is_digit c = false -> c <> "010"%char ->
  re_digits_dat (digits +++ String c ("dat" +++ after)) = Some digits.
Proof.
  intros Hne Hd Hc Hnl. induction digits as [|d ds IH]; [congruence|].
  change (String d ds +++ String c ("dat" +++ after))
    with (String d (ds +++ String c ("dat" +++ after))).
  cbn [re_digits_dat]. simpl in Hd. apply andb_true_iff in Hd as [Hd Hds].
  rewrite Hd. destruct ds as [|d' ds].
  - cbn [append re_digits_dat]. rewrite Hc. unfold re_any_dat.
    destruct (Ascii.eqb_spec c "010"); [contradiction|].
    cbn [negb andb]. simpl. now destruct after.
  - rewrite IH; [reflexivity|discriminate|exact Hds].
Qed.

(** X2. The dot of the pattern before [dat] is any character and the
    pattern has no end: a path whose name goes on after the digits with
    any character that is no digit, no newline and no slash, then [dat]
    and anything without a slash, is read as the map of those digits, as
    [map_12.dat.dat] and [map_12-dat.dat] are. *)
Theorem re_match_any_dot folder digits c after :
  free_of "010" folder ->
  digits <> "" -> all_digits digits = true ->
  is_digit c = false -> c <> "010"%char -> c <> "/"%char ->
  free_of "/" after ->
  re_match (folder +++ "/map_" +++ digits +++ String c ("dat" +++ after)) = Some digits.
Proof.
  intros Hf Hne Hd Hc Hnl Hsl Hafter. induction folder as [|a folder IH].
  - change ("" +++ "/map_" +++ digits +++ String c ("dat" +++ after))
      with (String "/" ("map_" +++ digits +++ String c ("dat" +++ after))).
    cbn [re_match]. rewrite re_match_no_slash.
    + simpl. now apply re_digits_dat_then.
    + simpl. repeat (split; [discriminate|]).
      apply free_of_append; [apply all_digits_free; [reflexivity|exact Hd]|].
      simpl. split; [exact Hsl|]. repeat (split; [discriminate|]). exact Hafter.
  - destruct Hf as [Ha Hf].
    change (String a folder +++ "/map_" +++ digits +++ String c ("dat" +++ after))
      with (String a (folder +++ "/map_" +++ digits +++ String c ("dat" +++ after))).
    cbn [re_match]. rewrite (IH Hf).
    destruct (Ascii.eqb_spec a "010") as [->|_]; [congruence|reflexivity].
Qed.

Lemma re_match_any_dot_witness :
  re_match "data/map_12.dat.dat" = Some "12".
Proof.
  apply (re_match_any_dot "data" "12" "." ".dat"); simpl;
    repeat split; try discriminate; reflexivity.
Defined.

Lemma int_of_digits_zeros zeros s :
  all_zeros zeros = true -> int_of_digits 0 (zeros +++ s) = int_of_digits 0 s.
Proof.
  induction zeros as [|c zs IH]; simpl; [reflexivity|].
  intros H. apply andb_true_iff in H as [Hc Hz].
  apply Ascii.eqb_eq in Hc. subst c. now apply IH.
Qed.

Lemma all_digits_append s t :
  all_digits s = true -> all_digits t = true -> all_digits (s +++ t) = true.
Proof.
  induction s as [|c s IH]; simpl; [auto|].
  intros H Ht. apply andb_true_iff in H as [Hc Hs]. rewrite Hc. simpl. auto.
Qed.

Lemma all_zeros_digits s : all_zeros s = true -> all_digits s = true.
Proof.
  induction s as [|c s IH]; simpl; [auto|].
  intros H. apply andb_true_iff in H as [Hc Hs].
  apply Ascii.eqb_eq in Hc. subst c. simpl. auto.
Qed.

(** X3. A map is named after the number in its file name: when the
    directory holds the one file [map_<n>.dat] of the world at scale 0,
    with the number [n] written in decimal, [loadMaps] returns the table
    whose one key is the text of [n]; zeros before the number are
    dropped, [map_007.dat] giving the key ["7"]. *)
Theorem loadMaps_key_is_file_number env mapsDir world folder zeros n nbt :
  glob env (mapsDir +++ "/map_*.dat")
    = [folder +++ "/map_" +++ (zeros +++ str n) +++ ".dat"] ->
  free_of "010" folder -> all_zeros zeros = true -> 0 <= n ->
  nbt_load env (folder +++ "/map_" +++ (zeros +++ str n) +++ ".dat") = Ret nbt ->
  dimension nbt = "minecraft:" +++ world ->
  scale nbt = 0 ->
  loadMaps env mapsDir world = Ret [(str n, (xCenter nbt, zCenter nbt))].
Proof.
  intros Hglob Hf Hz Hn Hnbt Hdim Hscale.
  unfold loadMaps, reduce_files. rewrite Hglob. cbn [sorted fold_right insert_sorted].
  cbn [loadMaps_files]. unfold loadMaps_file. rewrite Hnbt. cbn [rbind].
  rewrite Hdim, String.eqb_refl.
  rewrite re_match_exact.
  - rewrite Hscale. cbn [Z.eqb]. rewrite int_of_digits_zeros by exact Hz.
    rewrite int_of_digits_str by exact Hn.
    cbn [dict_get dict_set rbind loadMaps_files fst snd loadMaps_result].
    unfold getitem. cbn [dict_get].
    destruct (Z.eq_dec n n); [reflexivity|congruence].
  - exact Hf.
  - intros E. destruct zeros; simpl in E; [now apply str_nonempty in E|discriminate].
  - apply all_digits_append; [now apply all_zeros_digits | now apply all_digits_str].
Qed.

Lemma loadMaps_key_is_file_number_witness :
  loadMaps (env_maps [("data/map_007.dat", overworld 100 (-200))]) "data" "world"
  = Ret [("7", (100, -200))].
Proof.
  apply (loadMaps_key_is_file_number
           (env_maps [("data/map_007.dat", overworld 100 (-200))])
           "data" "world" "data" "00" 7 (overworld 100 (-200)));
    try reflexivity.
  - simpl. repeat split; discriminate.
  - lia.
Defined.

(** X4. The key of the coordinates, [x] and [z] in decimal around a
    colon, tells the centres apart: two centres have the same key only
    when they are the same centre. *)
Theorem coordsKey_injective x z x' z' :
  coordsKey x z = coordsKey x' z' <-> (x, z) = (x', z').
Proof.
  split.
  - intros H. apply coordsKey_inj in H as [-> ->]. reflexivity.
  - intros [= -> ->]. reflexivity.
Qed.

(* ===================================================================== *)
(** ** What loadMaps raises and what it returns *)
(* ===================================================================== *)

Lemma map_records_raise env world files e :
  map_records env world files = Raise e ->
  exists file, In file files /\ map_record env world file = Raise e.
Proof.
  induction files as [|f files IH]; simpl; [discriminate|].
  destruct (map_record env world f) as [o|e'] eqn:Hf; simpl.
  - destruct (map_records env world files) as [recs|e'] eqn:Hrest; simpl; [discriminate|].
    intros [= ->]. destruct (IH eq_refl) as (file & Hin & Hr). eauto.
  - intros [= ->]. eauto.
Qed.

Lemma map_record_raise env world file e :
  map_record env world file = Raise e ->
  nbt_load env file = Raise e \/
  (e = AttributeError /\
   exists nbt, nbt_load env file = Ret nbt /\
               dimension nbt = "minecraft:" +++ world /\ re_match file = None).
Proof.
  unfold map_record. destruct (nbt_load env file) as [nbt|e']; cbn [rbind].
  - destruct (String.eqb (dimension nbt) ("minecraft:" +++ world)) eqn:Hd; [|discriminate].
    apply String.eqb_eq in Hd.
    destruct (re_match file) eqn:Hre.
    + destruct (scale nbt =? 0); discriminate.
    + intros [= <-]. right. eauto.
  - intros [= ->]. now left.
Qed.

(** X5. [loadMaps] fails only on a file: when it raises, a path of the
    enumeration either could not be decoded, and the exception is the one
    of the decoder, or is a file of the dimension of the world whose name
    the pattern does not match, and the exception is [AttributeError].
    The look-up [allMaps[mapID]] of the last loop never fails. *)
Theorem loadMaps_raises_on_a_file env mapsDir world e :
  loadMaps env mapsDir world = Raise e ->
  exists file,
    In file (glob env (mapsDir +++ "/map_*.dat")) /\
    (nbt_load env file = Raise e \/
     (e = AttributeError /\
      exists nbt, nbt_load env file = Ret nbt /\
                  dimension nbt = "minecraft:" +++ world /\ re_match file = None)).
Proof.
  unfold loadMaps. intros Hrun.
  destruct (map_records env world (sorted (glob env (mapsDir +++ "/map_*.dat"))))
    as [recs|e'] eqn:Hrecs.
  - destruct (reduce_files_total _ _ _ _ Hrecs) as [table Ht]. congruence.
  - assert (e' = e).
    { unfold reduce_files in Hrun.
      rewrite (loadMaps_files_raise env world _ e' _ Hrecs) in Hrun.
      simpl in Hrun. congruence. }
    subst e'. apply map_records_raise in Hrecs as (file & Hin & Hr).
    exists file. split; [now apply (proj1 (In_sorted _ _))|].
    now apply map_record_raise.
Qed.

Lemma loadMaps_raises_on_a_file_witness :
  exists file,
    In file ["data/map_x.dat"] /\
    (nbt_load (env_maps [("data/map_x.dat", overworld 0 0)]) file = Raise AttributeError \/
     (AttributeError = AttributeError /\
      exists nbt,
        nbt_load (env_maps [("data/map_x.dat", overworld 0 0)]) file = Ret nbt /\
        dimension nbt = "minecraft:" +++ "world" /\ re_match file = None)).
Proof.
  apply (loadMaps_raises_on_a_file (env_maps [("data/map_x.dat", overworld 0 0)])
           "data" "world" AttributeError).
  reflexivity.
Defined.

Lemma In_dict_set {K V} (dec : forall a b : K, {a = b} + {a <> b})
    (k k0 : K) (v v0 : V) (d : dict K V) :
  In (k, v) (dict_set dec k0 v0 d) -> (k, v) = (k0, v0) \/ In (k, v) d.
Proof.
  induction d as [|[k1 v1] d IH]; simpl.
  - intros [H|[]]. now left.
  - destruct (dec k0 k1) as [->|Hne]; simpl.
    + intros [H|H]; [left; congruence | right; now right].
    + intros [H|H]; [right; now left|].
      destruct (IH H); [now left | right; now right].
Qed.

Lemma loadMaps_result_In allMaps items : forall acc table,
  loadMaps_result items allMaps acc = Ret table ->
  forall k c, In (k, c) table ->
    In (k, c) acc \/
    exists key i, In (key, i) items /\ k = str i /\
                  dict_get Z.eq_dec i allMaps = Some c.
Proof.
  induction items as [|[key i] items IH]; intros acc table; simpl.
  - intros [= <-] k c H. now left.
  - unfold getitem. destruct (dict_get Z.eq_dec i allMaps) as [ci|] eqn:Hi; simpl;
      [|discriminate].
    intros Hrun k c Hin. destruct (IH _ _ Hrun k c Hin) as [Hacc|(key' & i' & H & Hk & Hc)].
    + apply In_dict_set in Hacc as [[= -> ->]|Hacc]; [|now left].
      right. exists key, i. auto.
    + right. exists key', i'. auto.
Qed.

(** X6. Whatever the files, numbers shared by two files included, every
    entry of the table [loadMaps] returns is a map file of the world at
    scale 0: its key is the text of the number in the name of that file
    and its value the centre of that file. *)
Theorem loadMaps_entries_are_files env mapsDir world table k c :
  loadMaps env mapsDir world = Ret table ->
  In (k, c) table ->
  exists file nbt group1,
    In file (glob env (mapsDir +++ "/map_*.dat")) /\
    nbt_load env file = Ret nbt /\
    dimension nbt = "minecraft:" +++ world /\
    scale nbt = 0 /\
    re_match file = Some group1 /\
    k = str (int_of_digits 0 group1) /\
    c = (xCenter nbt, zCenter nbt).
Proof.
  unfold loadMaps. intros Hrun Hin.
  destruct (map_records env world (sorted (glob env (mapsDir +++ "/map_*.dat"))))
    as [recs|e'] eqn:Hrecs.
  - unfold reduce_files in Hrun.
    rewrite (loadMaps_files_records _ _ _ _ _ Hrecs) in Hrun. simpl in Hrun.
    pose proof (maps_inv_fold recs) as Hinv.
    destruct (loadMaps_result_In _ _ _ _ Hrun k c Hin) as [[]|(key & i & _ & -> & Hc)].
    apply (inv_all _ _ Hinv) in Hc.
    apply (map_records_In _ _ _ _ Hrecs) in Hc as (file & Hfile & Hr).
    apply map_record_Some in Hr as (nbt & g & H1 & H2 & H3 & H4 & -> & ->).
    exists file, nbt, g. repeat split; auto.
    now apply (proj1 (In_sorted _ _)).
  - unfold reduce_files in Hrun.
    rewrite (loadMaps_files_raise env world _ e' _ Hrecs) in Hrun. discriminate.
Qed.

Lemma loadMaps_entries_are_files_witness :
  exists file nbt group1,
    In file (keys [("data/map_7.dat", overworld 0 0); ("data/map_07.dat", overworld 5 5)]) /\
    nbt_load (env_maps [("data/map_7.dat", overworld 0 0); ("data/map_07.dat", overworld 5 5)])
      file = Ret nbt /\
    dimension nbt = "minecraft:" +++ "world" /\
    scale nbt = 0 /\
    re_match file = Some group1 /\
    "7" = str (int_of_digits 0 group1) /\
    (0, 0) = (xCenter nbt, zCenter nbt).
Proof.
  apply (loadMaps_entries_are_files
           (env_maps [("data/map_7.dat", overworld 0 0); ("data/map_07.dat", overworld 5 5)])
           "data" "world" [("7", (0, 0))] "7" (0, 0)).
  - reflexivity.
  - now left.
Defined.

(* ===================================================================== *)
(** ** What loadMarkers returns and what stops it *)
(* ===================================================================== *)

Lemma loadMarkers_loop_returns world items : forall acc table,
  NoDup (keys acc ++ keys items) ->
  loadMarkers_loop world items acc = Ret table ->
  table = acc ++ filter (managed world) items.
Proof.
  induction items as [|[id m] items IH]; intros acc table ND; simpl.
  - intros [= <-]. now rewrite app_nil_r.
  - assert (ND' : NoDup (keys acc ++ keys items)).
    { simpl in ND. now apply NoDup_remove_1 in ND. }
    unfold managed at 1. simpl.
    destruct (py_getitem m "world") as [w|e]; simpl; [|discriminate].
    destruct (py_eq_str w world); simpl.
    + destruct (py_getitem m "label") as [l|e]; simpl; [|discriminate].
      destruct (py_eq_str l id); simpl; [|now apply IH].
      assert (Hfresh : dict_mem string_dec id acc = false).
      { apply dict_mem_false. simpl in ND. apply NoDup_remove_2 in ND.
        intros Hin. apply ND. apply in_or_app. now left. }
      rewrite (dict_set_fresh string_dec _ m _ Hfresh). intros Hrun.
      apply IH in Hrun.
      * now rewrite <- app_assoc in Hrun.
      * unfold keys in *. rewrite map_app. simpl. rewrite <- app_assoc. exact ND.
    + destruct (py_getitem m "label"); now apply IH.
Qed.

Lemma loadMarkers_events env file markerSet world events r :
  loadMarkers env file markerSet world = (events, r) ->
  events = [] \/
  exists message, events = [Stderr ("#ERROR: " +++ message)] /\ r = Raise (SystemExit 1).
Proof.
  unfold loadMarkers.
  destruct (safe_load env file) as [ | | |doc]; simpl;
    try (intros [= <- <-]; auto; right; eexists; split; reflexivity).
  destruct (py_in "sets" doc) as [[|]|e]; simpl.
  - destruct (rbind _ _); intros [= <- <-]; now left.
  - intros [= <- <-]. right. eexists. split; reflexivity.
  - intros [= <- <-]. now left.
Qed.

(** X7. Whatever the markers of the set, when [loadMarkers] returns a
    table it has printed nothing and the table holds, in the order of the
    file, the markers of the set whose world is the target world and
    whose label is their id, and no other; a marker of another world need
    not have a label. *)
Theorem loadMarkers_returns_managed env file markerSet world doc items events table :
  safe_load env file = Document doc ->
  set_items doc markerSet = Ret items ->
  NoDup (keys items) ->
  loadMarkers env file markerSet world = (events, Ret table) ->
  events = [] /\
  table = filter (managed world) items /\
  forall id m, In (id, m) table <->
    In (id, m) items /\
    py_getitem m "world" = Ret (YStr world) /\
    py_getitem m "label" = Ret (YStr id).
Proof.
  intros Hload Hitems ND Hrun.
  rewrite (loadMarkers_with_sets _ _ _ _ _ Hload (set_items_has_sets _ _ _ Hitems)) in Hrun.
  rewrite Hitems in Hrun. simpl in Hrun. injection Hrun as <- Hloop.
  apply loadMarkers_loop_returns in Hloop; [|exact ND]. simpl in Hloop. subst table.
  split; [reflexivity|]. split; [reflexivity|].
  intros id m. rewrite filter_In. unfold managed. simpl. split.
  - intros [Hin Hm]. split; [exact Hin|].
    destruct (py_getitem m "world") as [w|]; [|discriminate].
    destruct (py_getitem m "label") as [l|]; [|discriminate].
    apply andb_true_iff in Hm as [Hw Hl].
    apply py_eq_str_true in Hw, Hl. now subst.
  - intros (Hin & -> & ->). simpl. now rewrite !String.eqb_refl.
Qed.

Lemma loadMarkers_returns_managed_witness :
  [("5", marker "world" "5" 100 64 (-200))]
  = filter (managed "world")
      [("5", marker "world" "5" 100 64 (-200));
       ("home", YMap [("world", YStr "world_nether"); ("x", YInt 1)])].
Proof.
  apply (loadMarkers_returns_managed
    (env_markers (Document (markers_doc "markers"
       [("5", marker "world" "5" 100 64 (-200));
        ("home", YMap [("world", YStr "world_nether"); ("x", YInt 1)])])))
    "markers.yml" "markers" "world" _
    [("5", marker "world" "5" 100 64 (-200));
     ("home", YMap [("world", YStr "world_nether"); ("x", YInt 1)])]
    [] [("5", marker "world" "5" 100 64 (-200))] eq_refl eq_refl).
  - repeat constructor; simpl; intuition discriminate.
  - reflexivity.
Defined.

Lemma py_getitem_raises v k e :
  py_getitem v k = Raise e -> e = KeyError \/ e = TypeError.
Proof.
  destruct v; simpl; try (intros [= <-]; now right).
  unfold getitem. destruct (dict_get _ _ _); [discriminate|].
  intros [= <-]. now left.
Qed.

Lemma loadMarkers_loop_raises world items : forall acc e,
  loadMarkers_loop world items acc = Raise e -> e = KeyError \/ e = TypeError.
Proof.
  induction items as [|[id m] items IH]; intros acc e; simpl; [discriminate|].
  destruct (py_getitem m "world") as [w|e'] eqn:Hw; simpl.
  - destruct (py_eq_str w world); [|apply IH].
    destruct (py_getitem m "label") as [l|e'] eqn:Hl; simpl.
    + destruct (py_eq_str l id); apply IH.
    + intros [= <-]. eapply py_getitem_raises; eauto.
  - intros [= <-]. eapply py_getitem_raises; eauto.
Qed.

Lemma loadMarkers_loop_no_world world items : forall acc id m e,
  In (id, m) items -> py_getitem m "world" = Raise e ->
  exists e', loadMarkers_loop world items acc = Raise e'.
Proof.
  induction items as [|[id0 m0] items IH]; intros acc id m e Hin Hw; [contradiction|].
  simpl. destruct Hin as [[= -> ->]|Hin].
  - rewrite Hw. simpl. eauto.
  - destruct (py_getitem m0 "world") as [w|e0]; simpl; [|eauto].
    destruct (py_eq_str w world); [|eapply IH; eauto].
    destruct (py_getitem m0 "label") as [l|e0]; simpl; [|eauto].
    destruct (py_eq_str l id0); eapply IH; eauto.
Qed.

(** X8. One marker of the set without a world stops [loadMarkers], be it
    a marker this script never made: when some marker under
    [sets[<marker-set>].markers] is no mapping or has no ['world'],
    [loadMarkers] prints nothing and ends in a [KeyError] or a
    [TypeError] that nothing catches. *)
Theorem loadMarkers_marker_without_world env file markerSet world doc items id m e :
  safe_load env file = Document doc ->
  set_items doc markerSet = Ret items ->
  In (id, m) items ->
  py_getitem m "world" = Raise e ->
  exists e', loadMarkers env file markerSet world = ([], Raise e') /\
             (e' = KeyError \/ e' = TypeError).
Proof.
  intros Hload Hitems Hin Hw.
  rewrite (loadMarkers_with_sets _ _ _ _ _ Hload (set_items_has_sets _ _ _ Hitems)).
  rewrite Hitems. simpl.
  destruct (loadMarkers_loop_no_world world items [] id m e Hin Hw) as [e' He'].
  exists e'. rewrite He'. split; [reflexivity|].
  eapply loadMarkers_loop_raises; eauto.
Qed.

Lemma loadMarkers_marker_without_world_witness :
  exists e',
    loadMarkers
      (env_markers (Document (markers_doc "markers"
         [("5", marker "world" "5" 100 64 (-200)); ("note", YStr "spawn")])))
      "markers.yml" "markers" "world" = ([], Raise e') /\
    (e' = KeyError \/ e' = TypeError).
Proof.
  apply (loadMarkers_marker_without_world
    (env_markers (Document (markers_doc "markers"
       [("5", marker "world" "5" 100 64 (-200)); ("note", YStr "spawn")])))
    "markers.yml" "markers" "world" _
    [("5", marker "world" "5" 100 64 (-200)); ("note", YStr "spawn")]
    "note" (YStr "spawn") TypeError eq_refl eq_refl).
  - right. now left.
  - reflexivity.
Defined.

(* ===================================================================== *)
(** ** What a run of the script does to the outside *)
(* ===================================================================== *)

Lemma main_usage int_of_str env argv0 args :
  List.length args <> 5%nat ->
  main int_of_str env argv0 args = ([Stderr (usage_text argv0)], Raise (SystemExit 1)).
Proof.
  intros Hlen.
  destruct args as [|a1 [|a2 [|a3 [|a4 [|a5 [|a6 rest]]]]]]; try reflexivity.
  simpl in Hlen. congruence.
Qed.

Lemma main_loops int_of_str server markerSet world maps markers :
  loops int_of_str (deleteMarker server)
    (fun id x y z => addMarker server id markerSet world x y z) maps markers
  = (flat_map (command server markerSet world) (fst (reconcile int_of_str maps markers)),
     snd (reconcile int_of_str maps markers)).
Proof.
  pose proof (loops_interp int_of_str (command server markerSet world) maps markers) as H.
  change (fun id => (command server markerSet world (Delete id), Ret tt))
    with (deleteMarker server) in H.
  change (fun id x y z => (command server markerSet world (Add id x y z), Ret tt))
    with (fun id x y z => addMarker server id markerSet world x y z) in H.
  exact H.
Qed.

(** The run with five arguments, path by path *)
Lemma main_five int_of_str env argv0 server world mapsDir markersFileName markerSet :
  main int_of_str env argv0 [server; world; mapsDir; markersFileName; markerSet] =
  if isfile env markersFileName then
    if isdir env mapsDir then
      match loadMaps env mapsDir world with
      | Raise e =>
          ([System ("mark2 send -n " +++ server +++ " save-all"); Sleep 5], Raise e)
      | Ret maps =>
          match loadMarkers env markersFileName markerSet world with
          | (t, Raise e) =>
              (System ("mark2 send -n " +++ server +++ " save-all") :: Sleep 5 :: t, Raise e)
          | (t, Ret markers) =>
              (System ("mark2 send -n " +++ server +++ " save-all") :: Sleep 5 :: t ++
                 flat_map (command server markerSet world)
                   (fst (reconcile int_of_str maps markers)),
               snd (reconcile int_of_str maps markers))
          end
      end
    else ([Stderr ("#ERROR: " +++ dq +++ mapsDir +++ dq +++ " is not a directory!")],
          Raise (SystemExit 1))
  else ([Stderr ("#ERROR: " +++ dq +++ markersFileName +++ dq +++ " doesn't exist!")],
        Raise (SystemExit 1)).
Proof.
  unfold main. cbn [List.length Nat.eqb negb]. rewrite bind_ret_l.
  destruct (isfile env markersFileName); cbn [negb]; [|reflexivity].
  rewrite bind_ret_l.
  destruct (isdir env mapsDir); cbn [negb]; [|reflexivity].
  rewrite bind_ret_l.
  destruct (loadMaps env mapsDir world) as [maps|e]; [|reflexivity].
  destruct (loadMarkers env markersFileName markerSet world) as [t [markers|e]];
    [|reflexivity].
  unfold serverCommand, emit, lift, bind. rewrite main_loops. reflexivity.
Qed.

(** X9. With five arguments, a markers file that is no file ends the run
    at once: one line on standard error naming the file, exit status 1,
    no command run, nothing read, whatever the directory of the maps is.
    With the file there and a directory of the maps that is no directory
    the run ends the same way, naming the directory. *)
Theorem main_checks_its_paths
    int_of_str env argv0 server world mapsDir markersFileName markerSet :
  (isfile env markersFileName = false ->
   main int_of_str env argv0 [server; world; mapsDir; markersFileName; markerSet]
   = ([Stderr ("#ERROR: " +++ dq +++ markersFileName +++ dq +++ " doesn't exist!")],
      Raise (SystemExit 1))) /\
  (isfile env markersFileName = true -> isdir env mapsDir = false ->
   main int_of_str env argv0 [server; world; mapsDir; markersFileName; markerSet]
   = ([Stderr ("#ERROR: " +++ dq +++ mapsDir +++ dq +++ " is not a directory!")],
      Raise (SystemExit 1))).
Proof.
  split.
  - intros Hfile. rewrite main_five, Hfile. reflexivity.
  - intros Hfile Hdir. rewrite main_five, Hfile, Hdir. reflexivity.
Qed.

Lemma main_checks_its_paths_witness :
  main no_int_of_str (env_maps []) "mapmarkers.py"
    ["pve"; "world"; "data"; "markers.yml"; "markers"]
  = ([Stderr ("#ERROR: " +++ dq +++ "markers.yml" +++ dq +++ " doesn't exist!")],
     Raise (SystemExit 1)).
Proof.
  apply (proj1 (main_checks_its_paths no_int_of_str (env_maps []) "mapmarkers.py"
                  "pve" "world" "data" "markers.yml" "markers")).
  reflexivity.
Defined.

(** X10. With the two paths in order the script first has the server
    save and waits five seconds, whatever comes next: when [loadMaps]
    raises, the run ends there with that exception, the markers file is
    not read and no marker command is sent; when [loadMarkers] fails, the
    run ends with what it printed and its exception, and no marker command
    is sent either. *)
Theorem main_saves_before_it_loads
    int_of_str env argv0 server world mapsDir markersFileName markerSet :
  isfile env markersFileName = true ->
  isdir env mapsDir = true ->
  (forall e, loadMaps env mapsDir world = Raise e ->
     main int_of_str env argv0 [server; world; mapsDir; markersFileName; markerSet]
     = ([System ("mark2 send -n " +++ server +++ " save-all"); Sleep 5], Raise e)) /\
  (forall maps t e, loadMaps env mapsDir world = Ret maps ->
     loadMarkers env markersFileName markerSet world = (t, Raise e) ->
     main int_of_str env argv0 [server; world; mapsDir; markersFileName; markerSet]
     = (System ("mark2 send -n " +++ server +++ " save-all") :: Sleep 5 :: t, Raise e)) /\
  exists rest,
    fst (main int_of_str env argv0 [server; world; mapsDir; markersFileName; markerSet])
    = System ("mark2 send -n " +++ server +++ " save-all") :: Sleep 5 :: rest.
Proof.
  intros Hfile Hdir. rewrite main_five, Hfile, Hdir. repeat split.
  - intros e ->. reflexivity.
  - intros maps t e -> ->. reflexivity.
  - destruct (loadMaps env mapsDir world) as [maps|e]; [|eexists; reflexivity].
    destruct (loadMarkers env markersFileName markerSet world) as [t [markers|e]];
      eexists; reflexivity.
Qed.

Lemma main_saves_before_it_loads_witness :
  main no_int_of_str (env_server [("data/map_x.dat", overworld 0 0)] YNull) "mapmarkers.py"
    ["pve"; "world"; "data"; "markers.yml"; "markers"]
  = ([System "mark2 send -n pve save-all"; Sleep 5], Raise AttributeError).
Proof.
  apply (proj1 (main_saves_before_it_loads no_int_of_str
                  (env_server [("data/map_x.dat", overworld 0 0)] YNull) "mapmarkers.py"
                  "pve" "world" "data" "markers.yml" "markers" eq_refl eq_refl)).
  reflexivity.
Defined.

Lemma command_is_system server markerSet world a e :
  In e (command server markerSet world a) ->
  exists c, e = System ("mark2 send -n " +++ server +++ " " +++ c) /\
    match a with
    | Delete id => c = "dmarker delete id:" +++ id
    | Add id x y z =>
        c = "dmarker add id:" +++ id +++ " " +++ id +++ " icon:pin set:" +++ markerSet +++
            " x:" +++ str x +++ " y:" +++ str y +++ " z:" +++ str z +++ " world:" +++ world
    end.
Proof.
  destruct a as [id|id x y z]; intros [<-|[]]; eexists; split; reflexivity.
Qed.



(** X12. Every command a run hands to the shell is sent with
    [mark2 send -n] to the server of the command line, and only after the
    five arguments and the two paths were accepted.  It is [save-all], or,
    once both tables are loaded, the delete of a marker of the loaded
    table or the add of a map of the loaded table, labelled by its id, at
    the centre of the map and Y = 64, in the marker set and the world of
    the command line. *)
Theorem main_console_commands int_of_str env argv0 args c :
  In (System c) (fst (main int_of_str env argv0 args)) ->
  exists server world mapsDir markersFileName markerSet,
    args = [server; world; mapsDir; markersFileName; markerSet] /\
    isfile env markersFileName = true /\
    isdir env mapsDir = true /\
    (c = "mark2 send -n " +++ server +++ " save-all" \/
     exists maps markers,
       loadMaps env mapsDir world = Ret maps /\
       loadMarkers env markersFileName markerSet world = ([], Ret markers) /\
       ((exists id,
           In id (keys markers) /\
           c = "mark2 send -n " +++ server +++ " dmarker delete id:" +++ id) \/
        (exists id x z,
           In (id, (x, z)) maps /\
           c = "mark2 send -n " +++ server +++ " dmarker add id:" +++ id +++ " " +++ id +++
               " icon:pin set:" +++ markerSet +++
               " x:" +++ str x +++ " y:64 z:" +++ str z +++ " world:" +++ world))).
Proof.
  destruct (Nat.eq_dec (List.length args) 5) as [Hlen|Hlen].
  - destruct args as [|server [|world [|mapsDir [|file [|markerSet [|a6 rest]]]]]];
      try discriminate Hlen.
    rewrite main_five. intros Hin.
    exists server, world, mapsDir, file, markerSet. split; [reflexivity|].
    destruct (isfile env file); [|destruct Hin as [[=]|[]]].
    destruct (isdir env mapsDir); [|destruct Hin as [[=]|[]]].
    split; [reflexivity|]. split; [reflexivity|].
    destruct (loadMaps env mapsDir world) as [maps|e].
    + destruct (loadMarkers env file markerSet world) as [t r] eqn:Hm.
      apply loadMarkers_events in Hm as [->|(message & -> & ->)].
      * destruct r as [markers|e]; simpl in Hin.
        -- destruct Hin as [[= <-]|[[=]|Hin]]; [now left|].
           right. exists maps, markers. split; [reflexivity|]. split; [reflexivity|].
           apply in_flat_map in Hin as (a & Ha & Hin).
           apply command_is_system in Hin as (c' & [= ->] & Hc).
           apply reconcile_actions in Ha as [(id & -> & Hid)|(id & x & z & -> & Hid)];
             subst c'.
           ++ left. exists id. split; [exact Hid|reflexivity].
           ++ right. exists id, x, z. split; [exact Hid|reflexivity].
        -- destruct Hin as [[= <-]|[[=]|[]]]. now left.
      * simpl in Hin. destruct Hin as [[= <-]|[[=]|[[=]|[]]]]. now left.
    + simpl in Hin. destruct Hin as [[= <-]|[[=]|[]]]. now left.
  - rewrite (main_usage _ _ _ _ Hlen). simpl. intros [[=]|[]].
Qed.

Lemma main_console_commands_witness :
  exists server world mapsDir markersFileName markerSet,
    ["pve"; "world"; "data"; "markers.yml"; "markers"]
    = [server; world; mapsDir; markersFileName; markerSet] /\
    isfile (env_server sample_maps (markers_doc "markers" [])) markersFileName = true /\
    isdir (env_server sample_maps (markers_doc "markers" [])) mapsDir = true.
Proof.
  destruct (main_console_commands no_int_of_str
              (env_server sample_maps (markers_doc "markers" [])) "mapmarkers.py"
              ["pve"; "world"; "data"; "markers.yml"; "markers"]
              ("mark2 send -n pve dmarker add id:5 5 icon:pin set:markers" +++
               " x:100 y:64 z:-200 world:world"))
    as (server & world & mapsDir & file & markerSet & Hargs & Hfile & Hdir & _).
  - vm_compute. tauto.
  - exists server, world, mapsDir, file, markerSet. auto.
Defined.

(** X13. A run prints nothing on standard output, and the only pause is
    the one of five seconds. *)
Theorem main_is_quiet int_of_str env argv0 args :
  forallb (fun e => match e with
                    | Stdout _ => false
                    | Sleep seconds => seconds =? 5
                    | _ => true
                    end)
    (fst (main int_of_str env argv0 args)) = true.
Proof.
  apply forallb_forall. intros ev Hin.
  destruct ev as [text| |c|seconds]; try reflexivity.
  - exfalso. revert Hin. destruct (Nat.eq_dec (List.length args) 5) as [Hlen|Hlen].
    + destruct args as [|server [|world [|mapsDir [|file [|markerSet [|a6 rest]]]]]];
        try discriminate Hlen.
      rewrite main_five.
      destruct (isfile env file); [|intros [[=]|[]]].
      destruct (isdir env mapsDir); [|intros [[=]|[]]].
      destruct (loadMaps env mapsDir world) as [maps|e]; [|intros [[=]|[[=]|[]]]].
      destruct (loadMarkers env file markerSet world) as [t r] eqn:Hm.
      apply loadMarkers_events in Hm as [->|(message & -> & ->)].
      * destruct r as [markers|e]; simpl.
        -- intros [[=]|[[=]|Hin]].
           apply in_flat_map in Hin as (a & _ & Hin).
           apply command_is_system in Hin as (c & [=] & _).
        -- intros [[=]|[[=]|[]]].
      * simpl. intros [[=]|[[=]|[[=]|[]]]].
    + rewrite (main_usage _ _ _ _ Hlen). intros [[=]|[]].
  - revert Hin. destruct (Nat.eq_dec (List.length args) 5) as [Hlen|Hlen].
    + destruct args as [|server [|world [|mapsDir [|file [|markerSet [|a6 rest]]]]]];
        try discriminate Hlen.
      rewrite main_five.
      destruct (isfile env file); [|intros [[=]|[]]].
      destruct (isdir env mapsDir); [|intros [[=]|[]]].
      destruct (loadMaps env mapsDir world) as [maps|e];
        [|intros [[=]|[[= <-]|[]]]; reflexivity].
      destruct (loadMarkers env file markerSet world) as [t r] eqn:Hm.
      apply loadMarkers_events in Hm as [->|(message & -> & ->)].
      * destruct r as [markers|e]; simpl.
        -- intros [[=]|[[= <-]|Hin]]; [reflexivity|]. exfalso.
           apply in_flat_map in Hin as (a & _ & Hin).
           apply command_is_system in Hin as (c & [=] & _).
        -- intros [[=]|[[= <-]|[]]]. reflexivity.
      * simpl. intros [[=]|[[= <-]|[[=]|[]]]]. reflexivity.
    + rewrite (main_usage _ _ _ _ Hlen). intros [[=]|[]].
Qed.

(** X14. With the two paths in order, both tables loaded and markers
    whose coordinates [int] reads, the run goes to its end: the server
    saves, the script waits, the commands of the actions of the two loops
    are sent in their order, one command for each action, and the exit
    status is 0. *)
Theorem main_completes
    int_of_str env argv0 server world mapsDir markersFileName markerSet maps markers :
  isfile env markersFileName = true ->
  isdir env mapsDir = true ->
  loadMaps env mapsDir world = Ret maps ->
  loadMarkers env markersFileName markerSet world = ([], Ret markers) ->
  (forall id m, dict_get string_dec id markers = Some m ->
                exists p, position int_of_str m = Ret p) ->
  exists actions,
    reconcile int_of_str maps markers = (actions, Ret tt) /\
    main int_of_str env argv0 [server; world; mapsDir; markersFileName; markerSet]
    = (System ("mark2 send -n " +++ server +++ " save-all") :: Sleep 5
         :: flat_map (command server markerSet world) actions,
       Ret tt) /\
    exit_status
      (snd (main int_of_str env argv0 [server; world; mapsDir; markersFileName; markerSet]))
    = 0 /\
    List.length (flat_map (command server markerSet world) actions) = List.length actions.
Proof.
  intros Hfile Hdir Hmaps Hmarkers Hpos.
  destruct (reconcile_complete int_of_str maps markers Hpos) as [actions Hrun].
  exists actions. split; [exact Hrun|].
  rewrite main_five, Hfile, Hdir, Hmaps, Hmarkers, Hrun. simpl.
  split; [reflexivity|]. split; [reflexivity|].
  clear. induction actions as [|[id|id x y z] l IH]; simpl; [reflexivity| |]; now rewrite IH.
Qed.

Lemma main_completes_witness :
  exists actions,
    main no_int_of_str
      (env_server sample_maps
         (markers_doc "markers"
            [("3", marker "world" "3" 1 64 1); ("5", marker "world" "5" 50 64 (-200))]))
      "mapmarkers.py" ["pve"; "world"; "data"; "markers.yml"; "markers"]
    = (System "mark2 send -n pve save-all" :: Sleep 5
         :: flat_map (command "pve" "markers" "world") actions,
       Ret tt) /\
    actions = [Delete "3"; Add "12" 0 64 0; Delete "5"; Add "5" 100 64 (-200)].
Proof.
  destruct (main_completes no_int_of_str
              (env_server sample_maps
                 (markers_doc "markers"
                    [("3", marker "world" "3" 1 64 1);
                     ("5", marker "world" "5" 50 64 (-200))]))
              "mapmarkers.py" "pve" "world" "data" "markers.yml" "markers"
              [("12", (0, 0)); ("5", (100, -200))]
              [("3", marker "world" "3" 1 64 1); ("5", marker "world" "5" 50 64 (-200))]
              eq_refl eq_refl eq_refl eq_refl)
    as (actions & Hrun & Hmain & _).
  - intros id m. simpl.
    repeat (destruct (string_dec id _); [intros [= <-]; eexists; reflexivity|]).
    discriminate.
  - exists actions. split; [exact Hmain|].
    vm_compute in Hrun. now injection Hrun as <-.
Defined.

(* ===================================================================== *)
(** ** More on the two loops *)
(* ===================================================================== *)

Lemma coordinate_differs int_of_str m x z e :
  differs int_of_str (x, z) m = Raise e ->
  exists k, (k = "x" \/ k = "y" \/ k = "z") /\ coordinate int_of_str m k = Raise e.
Proof.
  unfold differs.
  destruct (coordinate int_of_str m "x") as [mx|e'] eqn:Hx; cbn [rbind fst snd].
  - destruct (negb (x =? mx)); [discriminate|].
    destruct (coordinate int_of_str m "y") as [my|e'] eqn:Hy; cbn [rbind].
    + destruct (negb (MARKER_Y =? my)); [discriminate|].
      destruct (coordinate int_of_str m "z") as [mz|e'] eqn:Hz; cbn [rbind];
        [discriminate|].
      intros [= <-]. exists "z". auto.
    + intros [= <-]. exists "y". auto.
  - intros [= <-]. exists "x". auto.
Qed.

Lemma differs_false int_of_str m x z :
  differs int_of_str (x, z) m = Ret false <->
  position int_of_str m = Ret (x, MARKER_Y, z).
Proof.
  split.
  - unfold differs, position.
    destruct (coordinate int_of_str m "x") as [mx|e']; cbn [rbind fst snd];
      [|discriminate].
    destruct (x =? mx) eqn:Ex; cbn [negb]; [|discriminate].
    destruct (coordinate int_of_str m "y") as [my|e']; cbn [rbind]; [|discriminate].
    destruct (MARKER_Y =? my) eqn:Ey; cbn [negb]; [|discriminate].
    destruct (coordinate int_of_str m "z") as [mz|e']; cbn [rbind]; [|discriminate].
    destruct (z =? mz) eqn:Ez; cbn [negb]; [|discriminate].
    intros _. apply Z.eqb_eq in Ex, Ey, Ez. now subst.
  - intros Hp. rewrite (differs_position _ _ x z _ _ _ Hp).
    now rewrite (proj2 (position_eqb x z x MARKER_Y z) eq_refl).
Qed.

Lemma app_nil_both {A} (l1 l2 : list A) : l1 ++ l2 = [] -> l1 = [] /\ l2 = [].
Proof. destruct l1; [auto|discriminate]. Qed.

Lemma flat_map_nil_inv {A B} (f : A -> list B) (l : list A) :
  flat_map f l = [] -> forall x, In x l -> f x = [].
Proof.
  induction l as [|y l IH]; simpl; [contradiction|].
  intros H x [<-|Hx]; apply app_nil_both in H as [H1 H2]; auto.
Qed.

(** X15. The two loops send nothing and end normally exactly when the
    table of markers already shows the table of maps: every marker is the
    marker of a map, and every map has a marker whose coordinates [int]
    reads as the centre of the map at Y = 64.  This holds of any two
    tables. *)
Theorem reconcile_sends_nothing_iff int_of_str maps markers :
  reconcile int_of_str maps markers = ([], Ret tt) <->
  (forall id, In id (keys markers) -> In id (keys maps)) /\
  (forall id x z, In (id, (x, z)) maps ->
     exists m, dict_get string_dec id markers = Some m /\
               position int_of_str m = Ret (x, MARKER_Y, z)).
Proof.
  rewrite reconcile_run. split.
  - destruct (for_each maps (update_one int_of_str markers)) as [t r] eqn:Hrun.
    simpl. intros [= Hnil ->]. apply app_nil_both in Hnil as [Hdel ->].
    apply for_each_Ret_inv in Hrun as [Hok Hupd]. symmetry in Hupd. split.
    + intros id Hid. pose proof (flat_map_nil_inv _ _ Hdel id Hid) as H.
      unfold delete_one in H.
      destruct (dict_mem string_dec id maps) eqn:Hmem; [|discriminate].
      now apply dict_mem_true in Hmem.
    + intros id x z Hin.
      pose proof (flat_map_nil_inv _ _ Hupd (id, (x, z)) Hin) as H. cbv beta in H.
      pose proof (update_one_cases int_of_str markers id x z) as Hc.
      destruct (dict_get string_dec id markers) as [m|]; [|rewrite Hc in H; discriminate].
      exists m. split; [reflexivity|]. apply differs_false.
      destruct (differs int_of_str (x, z) m) as [[|]|e] eqn:Hd.
      * rewrite Hc in H. discriminate.
      * reflexivity.
      * specialize (Hok (id, (x, z)) Hin). rewrite Hc in Hok. discriminate.
  - intros [Hdel Hupd].
    rewrite for_each_ok.
    + simpl. rewrite !flat_map_nil; [reflexivity| |].
      * intros [id [x z]] Hin. destruct (Hupd id x z Hin) as (m & Hm & Hp).
        pose proof (update_one_cases int_of_str markers id x z) as Hc.
        rewrite Hm, (proj2 (differs_false _ _ _ _) Hp) in Hc. now rewrite Hc.
      * intros id Hid. unfold delete_one.
        now rewrite (proj2 (dict_mem_true string_dec id maps) (Hdel id Hid)).
    + intros [id [x z]] Hin. destruct (Hupd id x z Hin) as (m & Hm & Hp).
      pose proof (update_one_cases int_of_str markers id x z) as Hc.
      rewrite Hm, (proj2 (differs_false _ _ _ _) Hp) in Hc. now rewrite Hc.
Qed.

(** X16. The edges of the two loops.  Without any map every marker of the
    table is deleted, in the order of the table, and no coordinate is
    read, so the run cannot fail; without any marker every map is added
    at its centre and Y = 64, in the order of the table of maps. *)
Theorem reconcile_empty_tables int_of_str :
  (forall markers,
     reconcile int_of_str [] markers = (map Delete (keys markers), Ret tt)) /\
  (forall maps,
     reconcile int_of_str maps []
     = (map (fun entry => Add (fst entry) (fst (snd entry)) 64 (snd (snd entry))) maps,
        Ret tt)).
Proof.
  split.
  - intros markers. rewrite reconcile_run. simpl. rewrite app_nil_r.
    apply (f_equal (fun l => (l, Ret tt))).
    induction (keys markers) as [|id l IH]; simpl; [reflexivity|]. now rewrite IH.
  - intros maps. rewrite reconcile_run. rewrite for_each_ok.
    + simpl. apply (f_equal (fun l => (l, Ret tt))).
      induction maps as [|[id [x z]] maps IH]; simpl; [reflexivity|]. now rewrite IH.
    + now intros [id [x z]] _.
Qed.

Lemma deletes_paired_cons maps a l :
  no_delete_of maps a -> deletes_paired maps l -> deletes_paired maps (a :: l).
Proof.
  intros Ha Hl before id after E Hid. destruct before as [|b before]; simpl in E.
  - injection E as -> _. simpl in Ha. contradiction.
  - injection E as _ E. eapply Hl; eauto.
Qed.

Lemma deletes_paired_app maps l1 l2 :
  Forall (no_delete_of maps) l1 -> deletes_paired maps l2 -> deletes_paired maps (l1 ++ l2).
Proof.
  induction 1 as [|a l1 Ha _ IH]; intros H2; simpl; [exact H2|].
  apply deletes_paired_cons; auto.
Qed.

Lemma deletes_paired_pair maps id x z l :
  In (id, (x, z)) maps -> deletes_paired maps l ->
  deletes_paired maps (Delete id :: Add id x MARKER_Y z :: l).
Proof.
  intros Hin Hl before id' after E Hid.
  destruct before as [|b [|b' before]]; simpl in E.
  - injection E as <- <-. eauto.
  - injection E as _ E _. discriminate.
  - injection E as _ _ E. eapply Hl; eauto.
Qed.

Lemma deletes_paired_updates int_of_str maps markers l :
  (forall entry, In entry l -> In entry maps) ->
  deletes_paired maps (flat_map (fun entry => fst (update_one int_of_str markers entry)) l).
Proof.
  induction l as [|[id [x z]] l IH]; intros Hl; cbn [flat_map].
  - intros [|? ?] ? ? E; discriminate.
  - assert (IH' := IH (fun entry H => Hl entry (or_intror H))).
    pose proof (update_one_cases int_of_str markers id x z) as Hc.
    destruct (dict_get string_dec id markers) as [m|].
    + destruct (differs int_of_str (x, z) m) as [[|]|e]; rewrite Hc; cbn [fst app]; auto.
      apply deletes_paired_pair; auto. apply Hl. now left.
    + rewrite Hc. cbn [fst app]. apply deletes_paired_cons; simpl; auto.
Qed.

(** X17. A marker of a current map is never left deleted: in the actions
    of any run, also one that an exception cuts short, a delete of the id
    of a map is followed at once by the add of that id at the centre of
    the map and Y = 64. *)
Theorem delete_of_a_map_is_followed_by_its_add
    int_of_str maps markers before id after :
  fst (reconcile int_of_str maps markers) = before ++ Delete id :: after ->
  In id (keys maps) ->
  exists x z rest, In (id, (x, z)) maps /\ after = Add id x MARKER_Y z :: rest.
Proof.
  revert before id after. change (deletes_paired maps (fst (reconcile int_of_str maps markers))).
  rewrite reconcile_run. simpl.
  destruct (for_each_events maps (update_one int_of_str markers)) as (l1 & l2 & Hl & ->).
  apply deletes_paired_app.
  - apply Forall_forall. intros a Ha. apply in_flat_map in Ha as (k & _ & Ha).
    unfold delete_one in Ha. destruct (dict_mem string_dec k maps) eqn:Hk; [contradiction|].
    destruct Ha as [<-|[]]. simpl. now apply dict_mem_false in Hk.
  - apply deletes_paired_updates. intros entry Hin. rewrite Hl. apply in_or_app. now left.
Qed.

Lemma delete_of_a_map_is_followed_by_its_add_witness :
  exists x z rest,
    In ("5", (x, z)) [("5", (100, -200)); ("8", (0, 0))] /\
    [Add "5" 100 64 (-200); Add "8" 0 64 0] = Add "5" x MARKER_Y z :: rest.
Proof.
  apply (delete_of_a_map_is_followed_by_its_add no_int_of_str
           [("5", (100, -200)); ("8", (0, 0))]
           [("3", marker "world" "3" 1 64 1); ("5", marker "world" "5" 50 64 (-200))]
           [Delete "3"] "5" [Add "5" 100 64 (-200); Add "8" 0 64 0]).
  - reflexivity.
  - now left.
Defined.

Lemma snd_bind_ret {E A B} (t : list E) (a : A) (k : A -> run E B) :
  snd (bind (t, Ret a) k) = snd (k a).
Proof. unfold bind. now destruct (k a). Qed.

(** X18. The two loops fail only while reading a coordinate: when a run
    raises, some map has a marker of which [int(marker['x'])],
    [int(marker['y'])] or [int(marker['z'])] raises that exception.  The
    first loop was over by then: every marker that is the marker of no
    map had its delete sent. *)
Theorem reconcile_raises_on_a_coordinate int_of_str maps markers e :
  snd (reconcile int_of_str maps markers) = Raise e ->
  (exists id x z m k,
     In (id, (x, z)) maps /\
     dict_get string_dec id markers = Some m /\
     (k = "x" \/ k = "y" \/ k = "z") /\
     coordinate int_of_str m k = Raise e) /\
  (forall id, In id (keys markers) -> ~ In id (keys maps) ->
     In (Delete id) (fst (reconcile int_of_str maps markers))).
Proof.
  rewrite reconcile_run. simpl. intros Hrun. split.
  - clear -Hrun. induction maps as [|[id [x z]] maps IH]; [discriminate|].
    cbn [for_each] in Hrun.
    pose proof (update_one_cases int_of_str markers id x z) as Hc.
    destruct (dict_get string_dec id markers) as [m|] eqn:Hm.
    + destruct (differs int_of_str (x, z) m) as [[|]|e'] eqn:Hd; rewrite Hc in Hrun.
      * rewrite snd_bind_ret in Hrun.
        destruct (IH Hrun) as (id' & x' & z' & m' & k & Hin & H).
        exists id', x', z', m', k. split; [now right|exact H].
      * rewrite snd_bind_ret in Hrun.
        destruct (IH Hrun) as (id' & x' & z' & m' & k & Hin & H).
        exists id', x', z', m', k. split; [now right|exact H].
      * injection Hrun as <-.
        destruct (coordinate_differs _ _ _ _ _ Hd) as (k & Hk & Hco).
        exists id, x, z, m, k. split; [now left|]. auto.
    + rewrite Hc in Hrun. rewrite snd_bind_ret in Hrun.
      destruct (IH Hrun) as (id' & x' & z' & m' & k & Hin & H).
      exists id', x', z', m', k. split; [now right|exact H].
  - intros id Hid Hout. apply in_or_app. left. apply in_flat_map.
    exists id. split; [exact Hid|]. unfold delete_one.
    apply (dict_mem_false string_dec) in Hout. rewrite Hout. now left.
Qed.

Lemma reconcile_raises_on_a_coordinate_witness :
  In (Delete "3")
    (fst (reconcile no_int_of_str [("5", (100, -200))]
            [("3", marker "world" "3" 1 64 1);
             ("5", YMap [("world", YStr "world"); ("label", YStr "5"); ("x", YInt 100)])])).
Proof.
  apply (proj2 (reconcile_raises_on_a_coordinate no_int_of_str [("5", (100, -200))]
                  [("3", marker "world" "3" 1 64 1);
                   ("5", YMap [("world", YStr "world"); ("label", YStr "5");
                               ("x", YInt 100)])]
                  KeyError eq_refl) "3").
  - simpl. auto.
  - simpl. intros [H|[]]. discriminate.
Defined.

(* ===================================================================== *)
(** ** Maps that leave no entry in the table *)
(* ===================================================================== *)

Lemma map_records_none env world files :
  (forall file, In file files -> map_record env world file = Ret None) ->
  map_records env world files = Ret [].
Proof.
  induction files as [|file files IH]; intros H; simpl; [reflexivity|].
  rewrite (H file (or_introl eq_refl)). simpl.
  rewrite IH by (intros; apply H; now right). reflexivity.
Qed.

(** X19. Files of another dimension are passed over before their names
    are looked at, and files of the world at another scale once their
    names matched: when every file of the enumeration is one or the
    other, [loadMaps] returns the empty table, whatever the names of the
    files of other dimensions are. *)
Theorem loadMaps_without_maps_of_the_world env mapsDir world :
  (forall file, In file (glob env (mapsDir +++ "/map_*.dat")) ->
     exists nbt, nbt_load env file = Ret nbt /\
       (dimension nbt <> "minecraft:" +++ world \/
        (scale nbt <> 0 /\ exists group1, re_match file = Some group1))) ->
  loadMaps env mapsDir world = Ret [].
Proof.
  intros H. unfold loadMaps, reduce_files.
  rewrite (loadMaps_files_records env world _ [] ([], [])); [reflexivity|].
  apply map_records_none. intros file Hin. apply (proj1 (In_sorted _ _)) in Hin.
  destruct (H file Hin) as (nbt & Hnbt & Hcase). unfold map_record. rewrite Hnbt.
  cbn [rbind]. destruct Hcase as [Hdim|[Hscale [g Hg]]].
  - destruct (String.eqb_spec (dimension nbt) ("minecraft:" +++ world)); [contradiction|].
    reflexivity.
  - rewrite Hg. destruct (String.eqb (dimension nbt) ("minecraft:" +++ world));
      [|reflexivity].
    destruct (Z.eqb_spec (scale nbt) 0); [contradiction|reflexivity].
Qed.

Lemma loadMaps_without_maps_of_the_world_witness :
  loadMaps
    (env_maps
       [("data/map_x.dat",
         {| dimension := "minecraft:the_nether"; scale := 0; xCenter := 8; zCenter := 8 |});
        ("data/map_3.dat",
         {| dimension := "minecraft:world"; scale := 2; xCenter := 64; zCenter := 64 |})])
    "data" "world"
  = Ret [].
Proof.
  apply (loadMaps_without_maps_of_the_world
    (env_maps
       [("data/map_x.dat",
         {| dimension := "minecraft:the_nether"; scale := 0; xCenter := 8; zCenter := 8 |});
        ("data/map_3.dat",
         {| dimension := "minecraft:world"; scale := 2; xCenter := 64; zCenter := 64 |})])
    "data" "world").
  intros file [<-|[<-|[]]]; eexists; (split; [reflexivity|]).
  - left. discriminate.
  - right. split; [discriminate|]. eexists. reflexivity.
Defined.

(** X20. The marker of a map that a later map replaces is deleted: when
    two files of the world at scale 0 have the same centre, no two files
    sharing a number, the lower of the two numbers is no key of the table
    of [loadMaps], and a marker with that number as its id gets its
    delete in the first loop. *)
Theorem superseded_map_marker_is_deleted
    int_of_str env mapsDir world recs i j c markers :
  map_records env world (sorted (glob env (mapsDir +++ "/map_*.dat"))) = Ret recs ->
  ids_identify recs ->
  In (i, c) recs -> In (j, c) recs -> i < j ->
  In (str i) (keys markers) ->
  exists maps,
    loadMaps env mapsDir world = Ret maps /\
    ~ In (str i) (keys maps) /\
    In (Delete (str i)) (fst (reconcile int_of_str maps markers)).
Proof.
  intros Hrecs Hid Hi Hj Hlt Hmarker. unfold loadMaps.
  destruct (reduce_files_spec _ _ _ _ Hrecs Hid) as (maps & Hrun & _ & _ & _ & Hspec).
  exists maps. split; [exact Hrun|].
  assert (Hout : ~ In (str i) (keys maps)).
  { intros Hin. apply in_map_iff in Hin as ([k c'] & Hk & Hin). simpl in Hk. subst k.
    apply Hspec in Hin as (i' & E & Hi' & Hmax).
    apply str_inj in E. subst i'.
    assert (c' = c) by (eapply Hid; eauto). subst c'.
    specialize (Hmax j Hj). lia. }
  split; [exact Hout|].
  rewrite reconcile_run. simpl. apply in_or_app. left. apply in_flat_map.
  exists (str i). split; [exact Hmarker|]. unfold delete_one.
  apply (dict_mem_false string_dec) in Hout. rewrite Hout. now left.
Qed.

Lemma superseded_map_marker_is_deleted_witness :
  exists maps,
    loadMaps (env_maps [("data/map_7.dat", overworld 0 0); ("data/map_12.dat", overworld 0 0)])
      "data" "world" = Ret maps /\
    ~ In (str 7) (keys maps) /\
    In (Delete (str 7))
      (fst (reconcile no_int_of_str maps [("7", marker "world" "7" 0 64 0)])).
Proof.
  apply (superseded_map_marker_is_deleted no_int_of_str
           (env_maps [("data/map_7.dat", overworld 0 0); ("data/map_12.dat", overworld 0 0)])
           "data" "world" [(12, (0, 0)); (7, (0, 0))] 7 12 (0, 0)
           [("7", marker "world" "7" 0 64 0)]).
  - reflexivity.
  - intros i c c'. simpl. intros [[= <- <-]|[[= <- <-]|[]]] [[= <-]|[[= <-]|[]]];
      try reflexivity; try lia.
  - simpl. auto.
  - simpl. auto.
  - lia.
  - simpl. auto.
Defined.
